(** * usb_uart_bridge: the UART send/receive core of [src/main.c]

    A shallow embedding of the interrupt callback [uart_cb], the transmit
    routine [uart_send_string] and the two shell commands
    [cmd_send_string] / [cmd_read_last], followed by the properties the
    specification states about them.

    Conventions.
    - The C globals ([tx_done_sem], [tx_busy], [string_buffer], [rx_buf],
      [rx_buf_pos]) are the fields of one record, threaded explicitly.
    - What the program hands to its collaborators is recorded in three
      further fields: the bytes given to [uart_poll_out] ([wire]), the
      strings printed by [printk] ([console]) and the shell messages
      ([shell_out]).
    - What the hardware hands to the program is an argument: the bytes an
      interrupt finds in the FIFO, whether it reports transmit-ready, and
      which interrupts fire while the caller sleeps or busy-waits. *)

From Stdlib Require Import ZArith Lia Bool.
From Stdlib Require Import Strings.Byte Strings.String.
From stdpp Require Import base list.

Local Open Scope Z_scope.

(** ** Constants *)

Definition MAX_BUFFER_SIZE : Z := 256.
Definition MSG_SIZE : Z := 128.
Definition TERMINATING_CHAR : byte := x0d.

Definition NUL : byte := x00.
Definition LF : byte := x0a.
Definition CR : byte := x0d.

(** Error numbers of Zephyr's errno.h, which the source includes through
    the kernel headers. [k_sem_take] with a timeout returns [-EAGAIN]
    when the waiting period has elapsed. *)
Definition ENODEV : Z := 19.
Definition EINVAL : Z := 22.
Definition EAGAIN : Z := 11.

(** ** C strings *)

(** The bytes of a [char] array read as a C string: everything before the
    first NUL. (On an array with no NUL the C code would read past its
    end; the model stops at the end of the array. [rx_buf] always holds a
    NUL in its last cell, see [rx_inv].) *)
Fixpoint c_str (mem : list byte) : list byte :=
  match mem with
  | [] => []
  | c :: rest => if Byte.eqb c NUL then [] else c :: c_str rest
  end.

Definition strlen (mem : list byte) : nat := length (c_str mem).

(** [memset(buf, 0, n)] on an array of exactly [n] cells. *)
Definition memset_zero (n : Z) : list byte := replicate (Z.to_nat n) NUL.

(** [strncpy(dst, src, n)]: the first [n] cells of [dst] receive the
    characters of [src], padded with NULs when [src] is shorter. *)
Definition strncpy (dst src : list byte) (n : nat) : list byte :=
  take n (c_str src ++ replicate n NUL) ++ drop n dst.

(** ** Program state *)

Inductive shell_msg : Type :=
| ShellUsage
| ShellSent (text : list byte)
| ShellFailed (ret : Z)
| ShellTooLong (max : Z)
| ShellLast (line : list byte).

Record state : Type := mkState {
  tx_done_sem : nat;             (* K_SEM_DEFINE(tx_done_sem, 0, 1): count *)
  tx_busy : bool;
  string_buffer : list byte;     (* char string_buffer[MAX_BUFFER_SIZE] *)
  rx_buf : list byte;            (* char rx_buf[MSG_SIZE] *)
  rx_buf_pos : Z;                (* int rx_buf_pos *)
  tx_irq : bool;                 (* uart_irq_tx_enable / _disable *)
  wire : list byte;              (* bytes passed to uart_poll_out, oldest first *)
  console : list (list byte);    (* printk("Received: %s\n", rx_buf), oldest first *)
  shell_out : list shell_msg     (* shell_print / shell_error, oldest first *)
}.

(** Static storage is zero-initialised; the semaphore starts at 0. *)
Definition init_state : state :=
  {| tx_done_sem := 0%nat; tx_busy := false;
     string_buffer := memset_zero MAX_BUFFER_SIZE;
     rx_buf := memset_zero MSG_SIZE;
     rx_buf_pos := 0;
     tx_irq := false; wire := []; console := []; shell_out := [] |}.

Definition set_sem (v : nat) (s : state) : state :=
  mkState v (tx_busy s) (string_buffer s) (rx_buf s) (rx_buf_pos s)
          (tx_irq s) (wire s) (console s) (shell_out s).
Definition set_tx_busy (v : bool) (s : state) : state :=
  mkState (tx_done_sem s) v (string_buffer s) (rx_buf s) (rx_buf_pos s)
          (tx_irq s) (wire s) (console s) (shell_out s).
Definition set_string_buffer (v : list byte) (s : state) : state :=
  mkState (tx_done_sem s) (tx_busy s) v (rx_buf s) (rx_buf_pos s)
          (tx_irq s) (wire s) (console s) (shell_out s).
Definition set_rx_buf (v : list byte) (s : state) : state :=
  mkState (tx_done_sem s) (tx_busy s) (string_buffer s) v (rx_buf_pos s)
          (tx_irq s) (wire s) (console s) (shell_out s).
Definition set_rx_buf_pos (v : Z) (s : state) : state :=
  mkState (tx_done_sem s) (tx_busy s) (string_buffer s) (rx_buf s) v
          (tx_irq s) (wire s) (console s) (shell_out s).
Definition set_tx_irq (v : bool) (s : state) : state :=
  mkState (tx_done_sem s) (tx_busy s) (string_buffer s) (rx_buf s)
          (rx_buf_pos s) v (wire s) (console s) (shell_out s).
Definition uart_poll_out (c : byte) (s : state) : state :=
  mkState (tx_done_sem s) (tx_busy s) (string_buffer s) (rx_buf s)
          (rx_buf_pos s) (tx_irq s) (wire s ++ [c]) (console s) (shell_out s).
Definition printk_received (line : list byte) (s : state) : state :=
  mkState (tx_done_sem s) (tx_busy s) (string_buffer s) (rx_buf s)
          (rx_buf_pos s) (tx_irq s) (wire s) (console s ++ [line]) (shell_out s).
Definition shell_say (m : shell_msg) (s : state) : state :=
  mkState (tx_done_sem s) (tx_busy s) (string_buffer s) (rx_buf s)
          (rx_buf_pos s) (tx_irq s) (wire s) (console s) (shell_out s ++ [m]).

(** ** The interrupt callback [uart_cb] *)

Definition is_terminator (c : byte) : bool :=
  Byte.eqb c LF || Byte.eqb c CR.

(** [rx_buf_pos < (sizeof(rx_buf) - 1)] compares an [int] with a [size_t]:
    the cursor is converted to unsigned first (32-bit [size_t]). *)
Definition size_t_of_int (z : Z) : Z := z mod 2 ^ 32.

(** One iteration of the receive loop, for the byte [c] just read from
    the FIFO. Array writes use the cursor as index; the cursor stays in
    [0, MSG_SIZE - 1] ([rx_inv]), so no write is out of range. *)
Definition rx_byte (c : byte) (s : state) : state :=
  if is_terminator c && (0 <? rx_buf_pos s) then
    let s1 := set_rx_buf (<[Z.to_nat (rx_buf_pos s) := NUL]> (rx_buf s)) s in
    let s2 := printk_received (c_str (rx_buf s1)) s1 in
    set_rx_buf_pos 0 s2
  else if size_t_of_int (rx_buf_pos s) <? MSG_SIZE - 1 then
    let s1 := set_rx_buf (<[Z.to_nat (rx_buf_pos s) := c]> (rx_buf s)) s in
    set_rx_buf_pos (rx_buf_pos s + 1) s1
  else s.

(** The [while (uart_irq_rx_ready && uart_fifo_read == 1)] loop, over the
    bytes the FIFO yields during this interrupt. *)
Fixpoint rx_drain (fifo : list byte) (s : state) : state :=
  match fifo with
  | [] => s
  | c :: rest => rx_drain rest (rx_byte c s)
  end.

(** [k_sem_give] on a semaphore of limit 1. *)
Definition k_sem_give (s : state) : state :=
  if (tx_done_sem s <? 1)%nat then set_sem (tx_done_sem s + 1)%nat s else s.

(** What the hardware presents to one invocation of the callback. *)
Record irq : Type := mkIrq {
  irq_update : bool;         (* uart_irq_update(dev) *)
  rx_fifo : list byte;       (* bytes read by the receive loop *)
  tx_ready : bool            (* uart_irq_tx_ready(dev) *)
}.

Definition uart_cb (ev : irq) (s : state) : state :=
  if negb (irq_update ev) then s
  else
    let s1 := rx_drain (rx_fifo ev) s in
    if tx_ready ev then
      set_tx_irq false (k_sem_give (set_tx_busy false s1))
    else s1.

Fixpoint run_irqs (evs : list irq) (s : state) : state :=
  match evs with
  | [] => s
  | ev :: rest => run_irqs rest (uart_cb ev s)
  end.

(** ** The transmit routine [uart_send_string] *)

(** The [str] argument is a pointer: into [string_buffer] (from
    [cmd_send_string]) or to a string literal (the greeting of [main]). *)
Inductive str_ptr : Type :=
| PtrStringBuffer
| PtrLiteral (chars : list byte).

Definition deref (p : str_ptr) (s : state) : list byte :=
  match p with
  | PtrStringBuffer => string_buffer s
  | PtrLiteral chars => chars
  end.

(** [str[i]]; the callers pass [len] within the array. *)
Definition str_at (p : str_ptr) (i : nat) (s : state) : byte :=
  default NUL (deref p s !! i).

(** The interrupts that preempt one call of [uart_send_string]: during
    each [k_sleep] of the wait loop, during the [k_busy_wait] after each
    byte (indexed by the byte's position), and while [k_sem_take] waits. *)
Record send_env : Type := mkEnv {
  device_ready : bool;                 (* device_is_ready(uart) *)
  during_sleep : list (list irq);
  during_pacing : nat -> list irq;
  during_take : list irq
}.

(** [while (tx_busy) k_sleep(K_MSEC(1));] over the given sleeps. [None]:
    the flag is still set when the schedule ends, the caller is still in
    the loop. *)
Fixpoint wait_idle (sleeps : list (list irq)) (s : state) : option state :=
  if tx_busy s then
    match sleeps with
    | [] => None
    | evs :: rest => wait_idle rest (run_irqs evs s)
    end
  else Some s.

(** [for (i = 0; i < len; i++) { uart_poll_out(uart, str[i]); k_busy_wait(100); }]
    from index [i], with [n] iterations left. *)
Fixpoint send_loop (p : str_ptr) (pacing : nat -> list irq)
         (i n : nat) (s : state) : state :=
  match n with
  | O => s
  | S n' =>
      let s1 := uart_poll_out (str_at p i s) s in
      let s2 := run_irqs (pacing i) s1 in
      send_loop p pacing (S i) n' s2
  end.

(** [k_sem_take(&tx_done_sem, K_MSEC(100))]: taken at once when the count
    is positive, else after the first interrupt of the window that gives
    it, else [-EAGAIN]. *)
Fixpoint k_sem_take (window : list irq) (s : state) : Z * state :=
  if (0 <? tx_done_sem s)%nat then (0, set_sem (tx_done_sem s - 1)%nat s)
  else
    match window with
    | [] => (- EAGAIN, s)
    | ev :: rest => k_sem_take rest (uart_cb ev s)
    end.

Definition uart_send_string (env : send_env) (p : str_ptr) (len : nat)
           (s : state) : option (Z * state) :=
  if negb (device_ready env) then Some (- ENODEV, s)
  else
    match wait_idle (during_sleep env) s with
    | None => None
    | Some s1 =>
        let s2 := set_tx_irq true (set_tx_busy true s1) in
        let s3 := send_loop p (during_pacing env) 0 len s2 in
        Some (k_sem_take (during_take env) s3)
    end.

(** ** The shell commands *)

(** [argv] holds the argument strings; [argc] is its length. *)
Definition cmd_send_string (env : send_env) (argv : list (list byte))
           (s : state) : option (Z * state) :=
  match argv with
  | [_; arg] =>
      let s0 := set_string_buffer (memset_zero MAX_BUFFER_SIZE) s in
      let input_len := strlen arg in
      if Z.of_nat input_len <? MAX_BUFFER_SIZE - 2 then
        let b1 := strncpy (string_buffer s0) arg input_len in
        let b2 := <[input_len := TERMINATING_CHAR]> b1 in
        let b3 := <[(input_len + 1)%nat := LF]> b2 in
        let s1 := set_string_buffer b3 s0 in
        match uart_send_string env PtrStringBuffer (input_len + 2)%nat s1 with
        | None => None
        | Some (ret, s2) =>
            Some (ret, shell_say (if ret =? 0 then ShellSent (c_str arg)
                                  else ShellFailed ret) s2)
        end
      else
        Some (- EINVAL, shell_say (ShellTooLong (MAX_BUFFER_SIZE - 2)) s0)
  | _ => Some (- EINVAL, shell_say ShellUsage s)
  end.

(** What [cmd_read_last] prints with ["%s"]: [rx_buf] as a C string. *)
Definition read_last (s : state) : list byte := c_str (rx_buf s).

Definition cmd_read_last (s : state) : Z * state :=
  (0, shell_say (ShellLast (read_last s)) s).

(** The greeting [main] sends once the callback is installed. *)
Definition init_msg : list byte :=
  list_byte_of_string "UART initialized and ready for communication!"
    ++ [CR; LF].

Definition main_greeting (env : send_env) (s : state) : option (Z * state) :=
  uart_send_string env (PtrLiteral init_msg) (strlen init_msg) s.

(** ** Predicates used in the statements *)

Definition non_nul (c : byte) : bool := negb (Byte.eqb c NUL).
Definition is_data (c : byte) : bool := negb (is_terminator c).

(** The cursor is a valid index of [rx_buf] below its last cell, and the
    last cell holds NUL: reading [rx_buf] as a C string stays inside it. *)
Definition rx_inv (s : state) : Prop :=
  0 <= rx_buf_pos s <= MSG_SIZE - 1 /\
  length (rx_buf s) = Z.to_nat MSG_SIZE /\
  rx_buf s !! Z.to_nat (MSG_SIZE - 1) = Some NUL.

(** An interrupt gives the completion signal when the callback runs to
    its transmit part and the hardware reports transmit-ready. *)
Definition completes (ev : irq) : bool := irq_update ev && tx_ready ev.

Definition quiet_irqs (evs : list irq) : bool :=
  forallb (fun ev => negb (completes ev)) evs.

(** No interrupt gives the signal, neither between the [len] bytes nor
    during the wait of [k_sem_take]. *)
Definition no_completion (env : send_env) (len : nat) : bool :=
  forallb (fun i => quiet_irqs (during_pacing env i)) (seq 0 len)
  && quiet_irqs (during_take env).

(** Once the flag is set by a send, it stays set until the signal is
    given, and the signal stays pending until it is taken. *)
Definition busy_or_signalled (s : state) : Prop :=
  tx_busy s = true \/ (1 <= tx_done_sem s)%nat.

(** What holds of the globals between any two operations. *)
Definition state_inv (s : state) : Prop :=
  rx_inv s /\
  (tx_done_sem s <= 1)%nat /\
  length (string_buffer s) = Z.to_nat MAX_BUFFER_SIZE.

(** The states the program reaches from start-up by interrupts, shell
    commands and the greeting of [main]. *)
Inductive reachable : state -> Prop :=
| reach_init : reachable init_state
| reach_irq (ev : irq) (s : state) :
    reachable s -> reachable (uart_cb ev s)
| reach_send (env : send_env) (argv : list (list byte)) (s s' : state) (r : Z) :
    reachable s -> cmd_send_string env argv s = Some (r, s') -> reachable s'
| reach_read (s : state) :
    reachable s -> reachable (snd (cmd_read_last s))
| reach_greeting (env : send_env) (s s' : state) (r : Z) :
    reachable s -> main_greeting env s = Some (r, s') -> reachable s'.

(** ** Concrete inputs *)

Definition bytes (text : string) : list byte := list_byte_of_string text.

(** 128 data bytes, one more than [rx_buf] keeps. *)
Definition long_line : list byte := replicate 128%nat "a"%byte.

(** 129 data bytes without a terminator, more than [rx_buf] holds. *)
Definition overflow_run : list byte := replicate 129%nat "x"%byte.

Definition tx_done_irq : irq := mkIrq true [] true.
Definition rx_only_irq : irq := mkIrq true (bytes "pong" ++ [CR]) false.

(** The device is ready and the transmit-ready interrupt arrives while
    [k_sem_take] waits. *)
Definition env_completes : send_env :=
  mkEnv true [] (fun _ => []) [rx_only_irq; tx_done_irq].

(** The device is ready, bytes are received, transmit-ready never comes. *)
Definition env_silent : send_env :=
  mkEnv true [] (fun _ => [rx_only_irq]) [rx_only_irq].

(** The transmit-ready interrupt arrives right after the first byte. *)
Definition env_early_irq : send_env :=
  mkEnv true [] (fun i => if Nat.eqb i 0 then [tx_done_irq] else []) [].

Definition text_254 : list byte := replicate 254%nat "a"%byte.
Definition text_255 : list byte := replicate 255%nat "a"%byte.

(** The state left by a successful [send "hi"] from start-up. *)
Definition after_hi : state :=
  match cmd_send_string env_completes [bytes "send"; bytes "hi"] init_state with
  | Some (_, s) => s
  | None => init_state
  end.

(** ** Start-up: [main] *)

(** The two fixed messages [main] prints. *)
Inductive main_msg : Type :=
| MsgUartNotReady            (* printk("UART device not ready\n") *)
| MsgCommunicationReady.     (* printk("UART Communication Ready\n") *)

(** What the hardware presents to [main]. The callback is installed only
    after the DTR loop, so no interrupt reaches [uart_cb] before. *)
Record main_env : Type := mkMainEnv {
  uart_ready : bool;                 (* device_is_ready(uart) in main *)
  usb_enable_failed : bool;          (* usb_enable(NULL) != 0 *)
  dtr_polls : list Z;                (* dtr after each uart_line_ctrl_get *)
  irqs_before_greeting : list irq;   (* after uart_irq_rx_enable *)
  greeting_env : send_env
}.

(** [main] returns, or is still in one of its loops: the DTR loop when the
    polls run out, the wait loop of the greeting, or the final
    [while (1)], entered in state [s] with the greeting's result dropped. *)
Inductive main_outcome : Type :=
| MainReturned (rc : Z) (printed : list main_msg) (s : state)
| MainWaitingDtr
| MainInGreeting
| MainIdle (printed : list main_msg) (greeting_rc : Z) (s : state).

(** [while (!dtr) { uart_line_ctrl_get(.., &dtr); k_sleep(..); }]: whether
    the loop is left within the given polls. *)
Fixpoint dtr_seen (polls : list Z) : bool :=
  match polls with
  | [] => false
  | dtr :: rest => if dtr =? 0 then dtr_seen rest else true
  end.

Definition main (env : main_env) : main_outcome :=
  if negb (uart_ready env) then MainReturned (-1) [MsgUartNotReady] init_state
  else if usb_enable_failed env then MainReturned 0 [] init_state
  else if negb (dtr_seen (dtr_polls env)) then MainWaitingDtr
  else
    let s1 := run_irqs (irqs_before_greeting env) init_state in
    match main_greeting (greeting_env env) s1 with
    | None => MainInGreeting
    | Some (rc, s2) => MainIdle [MsgCommunicationReady] rc s2
    end.

(** ** Further predicates *)

(** The receive side of the state: line buffer, cursor, printed lines. *)
Definition rx_view (s : state) : list byte * Z * list (list byte) :=
  (rx_buf s, rx_buf_pos s, console s).

(** [s'] has the receive side of [s] after some further bytes. *)
Definition rx_fed (s s' : state) : Prop :=
  exists bs, rx_view s' = rx_view (rx_drain bs s).

(** The bytes one interrupt feeds to the receive loop. *)
Definition fifo_of (ev : irq) : list byte :=
  if irq_update ev then rx_fifo ev else [].

(** A printed line: at most [MSG_SIZE - 1] bytes, no NUL, and no
    terminator after its first byte. *)
Definition line_ok (line : list byte) : Prop :=
  Z.of_nat (length line) <= MSG_SIZE - 1 /\
  forallb non_nul line = true /\
  forallb is_data (drop 1 line) = true.

(** The cells of the line being accumulated, after the first, hold data. *)
Definition pending_tail_data (s : state) : Prop :=
  forallb is_data (drop 1 (take (Z.to_nat (rx_buf_pos s)) (rx_buf s))) = true.

(** A line that the framer returns unchanged: non-empty, no terminator,
    no NUL, at most [MSG_SIZE - 1] bytes. *)
Definition plain_line (line : list byte) : bool :=
  negb (Nat.eqb (length line) 0) && forallb is_data line
  && forallb non_nul line && (Z.of_nat (length line) <=? MSG_SIZE - 1).

(** Lines put on the wire, each followed by its own terminator. *)
Definition frame_lines (lts : list (list byte * byte)) : list byte :=
  concat (map (fun lt => fst lt ++ [snd lt]) lts).

(** The two states of the transmit handshake after [tx_busy = true]:
    waiting for the interrupt, or signalled by it. *)
Definition tx_pending (s : state) : Prop :=
  tx_busy s = true /\ tx_done_sem s = 0%nat /\ tx_irq s = true.

Definition tx_signalled (s : state) : Prop :=
  tx_busy s = false /\ tx_done_sem s = 1%nat /\ tx_irq s = false.

(** ** Further concrete inputs *)

(** The state after a send that timed out. *)
Definition after_timeout : state :=
  match uart_send_string env_silent (PtrLiteral (bytes "ping")) 4 init_state with
  | Some (_, s) => s
  | None => init_state
  end.

(** The transmit-ready interrupt of that send arrives late. *)
Definition after_late_irq : state := uart_cb tx_done_irq after_timeout.

(** A device that is not ready. *)
Definition env_not_ready : send_env := mkEnv false [] (fun _ => []) [].

(** The flag is cleared during the second sleep of the wait loop. *)
Definition env_wakes : send_env :=
  mkEnv true [[rx_only_irq]; [tx_done_irq]] (fun _ => []) [tx_done_irq].

Definition main_env_ok : main_env :=
  mkMainEnv true false [0; 0; 1] [rx_only_irq] env_completes.

Definition main_env_no_uart : main_env :=
  mkMainEnv false false [1] [] env_completes.

(** Reduce the projections of an updated state, and nothing else. *)
Ltac state_simpl :=
  cbn [tx_done_sem tx_busy string_buffer rx_buf rx_buf_pos tx_irq wire
       console shell_out set_sem set_tx_busy set_string_buffer set_rx_buf
       set_rx_buf_pos set_tx_irq uart_poll_out printk_received shell_say] in *.

(** * Properties *)

(** ** Bytes and C strings *)

Lemma c_str_app_nul (d r : list byte) : c_str (d ++ NUL :: r) = c_str d.
Proof.
  induction d as [|c d IH]; simpl; [reflexivity|].
  destruct (Byte.eqb c NUL); [reflexivity | now rewrite IH].
Qed.

Lemma c_str_nul_free (d : list byte) : forallb non_nul d = true -> c_str d = d.
Proof.
  induction d as [|c d IH]; simpl; [reflexivity|].
  intros [Hc Hd]%andb_prop. unfold non_nul in Hc.
  destruct (Byte.eqb c NUL); [discriminate | now rewrite IH].
Qed.

Lemma c_str_length_le (d : list byte) : (length (c_str d) <= length d)%nat.
Proof.
  induction d as [|c d IH]; simpl; [lia|].
  destruct (Byte.eqb c NUL); simpl; lia.
Qed.

Lemma c_str_is_nul_free (d : list byte) : forallb non_nul (c_str d) = true.
Proof.
  induction d as [|c d IH]; simpl; [reflexivity|].
  destruct (Byte.eqb c NUL) eqn:E; simpl; [reflexivity|].
  unfold non_nul at 1. now rewrite E.
Qed.

(** ** The receive loop, case by case *)

Lemma size_t_of_int_small (z : Z) : 0 <= z < 2 ^ 32 -> size_t_of_int z = z.
Proof. intros H. unfold size_t_of_int. now apply Z.mod_small. Qed.

Lemma rx_byte_publish (c : byte) (s : state) :
  is_terminator c = true -> 0 < rx_buf_pos s ->
  rx_byte c s =
  let buf := <[Z.to_nat (rx_buf_pos s) := NUL]> (rx_buf s) in
  set_rx_buf_pos 0 (printk_received (c_str buf) (set_rx_buf buf s)).
Proof.
  intros Hc Hp. unfold rx_byte. rewrite Hc.
  now rewrite (proj2 (Z.ltb_lt _ _) Hp).
Qed.

Lemma rx_byte_store (c : byte) (s : state) :
  is_terminator c = false \/ rx_buf_pos s = 0 ->
  0 <= rx_buf_pos s < MSG_SIZE - 1 ->
  rx_byte c s =
  set_rx_buf_pos (rx_buf_pos s + 1)
    (set_rx_buf (<[Z.to_nat (rx_buf_pos s) := c]> (rx_buf s)) s).
Proof.
  intros Hc Hp. unfold rx_byte.
  assert (is_terminator c && (0 <? rx_buf_pos s) = false) as ->.
  { destruct Hc as [-> | ->]; [reflexivity | apply andb_false_r]. }
  rewrite size_t_of_int_small by (unfold MSG_SIZE in Hp; lia).
  now rewrite (proj2 (Z.ltb_lt _ _) (proj2 Hp)).
Qed.

Lemma rx_byte_full (c : byte) (s : state) :
  is_terminator c = false -> rx_buf_pos s = MSG_SIZE - 1 -> rx_byte c s = s.
Proof.
  intros Hc Hp. unfold rx_byte. rewrite Hc, Hp. reflexivity.
Qed.

Lemma rx_drain_app (a b : list byte) (s : state) :
  rx_drain (a ++ b) s = rx_drain b (rx_drain a s).
Proof. revert s. induction a as [|c a IH]; intros s; simpl; auto. Qed.

Lemma rx_drain_full (ds : list byte) (s : state) :
  forallb is_data ds = true -> rx_buf_pos s = MSG_SIZE - 1 ->
  rx_drain ds s = s.
Proof.
  induction ds as [|c ds IH]; simpl; [reflexivity|].
  intros [Hc Hd]%andb_prop Hp.
  rewrite rx_byte_full; auto.
  unfold is_data in Hc. now destruct (is_terminator c).
Qed.

(** Data bytes written over the cells [mid] that follow the cursor. *)
Lemma rx_drain_store (ds pre mid rest : list byte) (s : state) :
  forallb is_data ds = true ->
  rx_buf s = pre ++ mid ++ rest ->
  length mid = length ds ->
  rx_buf_pos s = Z.of_nat (length pre) ->
  Z.of_nat (length pre + length ds) <= MSG_SIZE - 1 ->
  rx_drain ds s =
  set_rx_buf_pos (Z.of_nat (length pre + length ds))
    (set_rx_buf (pre ++ ds ++ rest) s).
Proof.
  revert pre mid s.
  induction ds as [|c ds IH]; intros pre mid s Hd Hbuf Hlen Hpos Hfit.
  - destruct mid; [|discriminate]. simpl in *.
    rewrite Nat.add_0_r, <- Hpos, <- Hbuf. now destruct s.
  - destruct mid as [|x mid]; [discriminate|].
    simpl in Hd. apply andb_prop in Hd as [Hc Hd].
    simpl in Hlen. injection Hlen as Hlen.
    simpl rx_drain.
    rewrite rx_byte_store.
    + rewrite Hpos, Nat2Z.id, Hbuf.
      rewrite insert_app_r_alt, Nat.sub_diag by lia. simpl.
      rewrite (IH (pre ++ [c]) mid).
      * unfold set_rx_buf_pos, set_rx_buf. simpl.
        rewrite length_app, <- !(assoc_L (++) pre [c]). simpl.
        replace (length pre + 1 + length ds)%nat
          with (length pre + S (length ds))%nat by lia.
        reflexivity.
      * exact Hd.
      * simpl. now rewrite <- (assoc_L (++) pre [c]).
      * exact Hlen.
      * simpl. rewrite length_app. simpl. lia.
      * rewrite length_app. simpl in *. lia.
    + left. unfold is_data in Hc. now destruct (is_terminator c).
    + simpl in Hfit. lia.
Qed.

(** ** The receive invariant *)

Lemma rx_inv_init : rx_inv init_state.
Proof. repeat split; simpl; unfold MSG_SIZE; lia. Qed.

Lemma rx_inv_rx_byte (c : byte) (s : state) : rx_inv s -> rx_inv (rx_byte c s).
Proof.
  intros (Hpos & Hlen & Hlast). unfold MSG_SIZE in *.
  destruct (Z_lt_le_dec 0 (rx_buf_pos s)) as [Hgt | Hle];
    [destruct (is_terminator c) eqn:Hc|].
  - rewrite rx_byte_publish by assumption.
    unfold rx_inv, MSG_SIZE. state_simpl.
    rewrite length_insert, list_lookup_insert.
    repeat split; try lia. case_decide; [reflexivity | assumption].
  - destruct (Z_lt_le_dec (rx_buf_pos s) 127) as [Hlt | Hge].
    + rewrite rx_byte_store by (auto; unfold MSG_SIZE; lia).
      unfold rx_inv, MSG_SIZE. state_simpl.
      rewrite length_insert, list_lookup_insert_ne by lia.
      repeat split; try lia. assumption.
    + rewrite rx_byte_full by (auto; unfold MSG_SIZE; lia).
      unfold rx_inv, MSG_SIZE. auto.
  - rewrite rx_byte_store by (unfold MSG_SIZE; lia).
    unfold rx_inv, MSG_SIZE. state_simpl.
    rewrite length_insert, list_lookup_insert_ne by lia.
    repeat split; try lia. assumption.
Qed.

Lemma rx_inv_rx_drain (bs : list byte) (s : state) :
  rx_inv s -> rx_inv (rx_drain bs s).
Proof.
  revert s. induction bs as [|c bs IH]; intros s H; simpl; auto.
  apply IH, rx_inv_rx_byte, H.
Qed.

Lemma rx_inv_last_cell (s : state) :
  rx_inv s -> drop (Z.to_nat (MSG_SIZE - 1)) (rx_buf s) = [NUL].
Proof.
  intros (_ & Hlen & Hlast).
  rewrite (drop_S _ _ _ Hlast), drop_ge; [reflexivity|].
  rewrite Hlen. unfold MSG_SIZE. lia.
Qed.

Lemma forallb_take_drop {A} (f : A -> bool) (n : nat) (l : list A) :
  forallb f l = true ->
  forallb f (take n l) = true /\ forallb f (drop n l) = true.
Proof.
  intros H. rewrite <- (take_drop n l), forallb_app in H.
  now apply andb_prop in H.
Qed.

(** ** A run of data bytes from an empty line buffer *)

(** Only the first [MSG_SIZE - 1] bytes are kept; nothing is printed. *)
Lemma rx_drain_data (ds : list byte) (s : state) :
  rx_inv s -> rx_buf_pos s = 0 -> forallb is_data ds = true ->
  let kept := take (Z.to_nat (MSG_SIZE - 1)) ds in
  rx_drain ds s =
  set_rx_buf_pos (Z.of_nat (length kept))
    (set_rx_buf (kept ++ drop (length kept) (rx_buf s)) s).
Proof.
  intros Hinv Hpos Hd kept.
  destruct (forallb_take_drop is_data (Z.to_nat (MSG_SIZE - 1)) ds Hd)
    as [Hk Hr].
  fold kept in Hk.
  assert (Hklen : (length kept <= 127)%nat).
  { unfold kept. rewrite length_take. unfold MSG_SIZE. lia. }
  destruct Hinv as (_ & Hlen & _). unfold MSG_SIZE in Hlen.
  rewrite <- (take_drop (Z.to_nat (MSG_SIZE - 1)) ds), rx_drain_app.
  fold kept.
  rewrite (rx_drain_store kept [] (take (length kept) (rx_buf s))
             (drop (length kept) (rx_buf s)) s); simpl; auto.
  - destruct (le_lt_dec (length ds) 127) as [Hshort | Hlong].
    + rewrite drop_ge by (unfold MSG_SIZE; lia). reflexivity.
    + apply rx_drain_full; [exact Hr|]. simpl.
      unfold kept. rewrite length_take. unfold MSG_SIZE. lia.
  - now rewrite take_drop.
  - rewrite length_take. lia.
  - unfold MSG_SIZE. lia.
Qed.

(** A non-empty run of data bytes followed by one terminator. *)
Lemma rx_drain_line (data : list byte) (t : byte) (s : state) :
  rx_inv s -> rx_buf_pos s = 0 ->
  data <> [] -> forallb is_data data = true -> is_terminator t = true ->
  let kept := take (Z.to_nat (MSG_SIZE - 1)) data in
  rx_drain (data ++ [t]) s =
  set_rx_buf_pos 0
    (printk_received (c_str kept)
       (set_rx_buf (kept ++ NUL :: drop (S (length kept)) (rx_buf s)) s)).
Proof.
  intros Hinv Hpos Hne Hd Ht kept.
  rewrite rx_drain_app, (rx_drain_data data s Hinv Hpos Hd). fold kept.
  assert (Hklen : (0 < length kept <= 127)%nat).
  { unfold kept. rewrite length_take. unfold MSG_SIZE.
    destruct data; [congruence | cbn [length]; lia]. }
  destruct Hinv as (_ & Hlen & _). unfold MSG_SIZE in Hlen.
  destruct (lookup_lt_is_Some_2 (rx_buf s) (length kept)) as [x Hx]; [lia|].
  cbn [rx_drain]. rewrite rx_byte_publish by (state_simpl; auto; lia).
  state_simpl. cbv zeta. state_simpl. rewrite Nat2Z.id.
  rewrite insert_app_r_alt, Nat.sub_diag by lia.
  rewrite (drop_S _ _ _ Hx). cbn [insert list_insert].
  rewrite c_str_app_nul. reflexivity.
Qed.

(** ** The Receive Framer: statements of the specification *)

(** The terminator guard only looks at the cursor: a terminator that
    arrives on an empty line buffer takes the append branch and becomes
    the first byte of the next line. *)
Lemma rx_byte_terminator_on_empty (t : byte) (s : state) :
  is_terminator t = true -> rx_buf_pos s = 0 ->
  rx_byte t s = set_rx_buf_pos 1 (set_rx_buf (<[0%nat := t]> (rx_buf s)) s).
Proof.
  intros _ Hpos. rewrite rx_byte_store; [now rewrite Hpos | now right |].
  rewrite Hpos. unfold MSG_SIZE. lia.
Qed.

(** C2, as stated, fails: 128 data bytes and a carriage return are
    delivered from the initial state; [read_last] returns 127 bytes, not
    the 128 that precede the terminator. *)
Lemma read_last_long_line_truncated :
  forallb is_data long_line = true /\
  is_terminator CR = true /\
  read_last (rx_drain (long_line ++ [CR]) init_state) <> long_line.
Proof.
  split; [reflexivity|]. split; [reflexivity|].
  intros H. apply (f_equal length) in H. vm_compute in H. discriminate.
Qed.

(** C2, amended: from the initial state, a non-empty run of bytes that
    holds neither a terminator nor a NUL, followed by one terminator,
    makes [read_last] return the first [MSG_SIZE - 1] bytes of the run;
    that is the whole run when it has at most [MSG_SIZE - 1] bytes. The
    line is also what [printk] prints. *)
Theorem read_last_single_line (data : list byte) (t : byte) :
  data <> [] ->
  forallb is_data data = true ->
  forallb non_nul data = true ->
  is_terminator t = true ->
  let s := rx_drain (data ++ [t]) init_state in
  read_last s = take (Z.to_nat (MSG_SIZE - 1)) data /\
  console s = [take (Z.to_nat (MSG_SIZE - 1)) data] /\
  (Z.of_nat (length data) <= MSG_SIZE - 1 -> read_last s = data).
Proof.
  intros Hne Hd Hn Ht s.
  assert (Hk : c_str (take (Z.to_nat (MSG_SIZE - 1)) data)
               = take (Z.to_nat (MSG_SIZE - 1)) data).
  { apply c_str_nul_free.
    now destruct (forallb_take_drop non_nul (Z.to_nat (MSG_SIZE - 1)) data Hn). }
  assert (Hr : read_last s = take (Z.to_nat (MSG_SIZE - 1)) data).
  { subst s. rewrite (rx_drain_line data t init_state rx_inv_init eq_refl Hne Hd Ht).
    unfold read_last. state_simpl. now rewrite c_str_app_nul. }
  split; [exact Hr|]. split.
  - subst s. rewrite (rx_drain_line data t init_state rx_inv_init eq_refl Hne Hd Ht).
    state_simpl. now rewrite Hk.
  - intros Hlen. rewrite Hr. apply take_ge. unfold MSG_SIZE in *. lia.
Qed.

Lemma read_last_single_line_witness :
  bytes "ab" <> [] /\
  forallb is_data (bytes "ab") = true /\
  forallb non_nul (bytes "ab") = true /\
  is_terminator CR = true /\
  read_last (rx_drain (bytes "ab" ++ [CR]) init_state) = bytes "ab".
Proof.
  repeat (split; [first [discriminate | reflexivity]|]).
  apply (read_last_single_line (bytes "ab") CR);
    [discriminate | reflexivity | reflexivity | reflexivity | now vm_compute].
Defined.

(** C5, as stated, fails: the line "ok" is published, then 129 data bytes
    arrive without a terminator. Nothing new is published, yet
    [read_last] no longer returns "ok": it reads the buffer the overflowing
    run was written into. *)
Lemma read_last_after_overflow_not_last_line :
  forallb is_data overflow_run = true /\
  MSG_SIZE < Z.of_nat (length overflow_run) /\
  console (rx_drain (bytes "ok" ++ [CR]) init_state) = [bytes "ok"] /\
  console (rx_drain overflow_run (rx_drain (bytes "ok" ++ [CR]) init_state))
    = [bytes "ok"] /\
  read_last (rx_drain overflow_run (rx_drain (bytes "ok" ++ [CR]) init_state))
    <> bytes "ok".
Proof.
  repeat (split; [reflexivity|]).
  intros H. apply (f_equal length) in H. vm_compute in H. discriminate.
Qed.

(** C5, amended: when the line buffer is empty (as it is right after a
    publication) and a run of more than [MSG_SIZE] bytes without a
    terminator arrives, nothing is published, the cursor stops at
    [MSG_SIZE - 1], every byte after the first [MSG_SIZE - 1] is dropped,
    and [read_last] returns the first [MSG_SIZE - 1] bytes of the run (up
    to their first NUL), which have replaced the earlier line. *)
Theorem overflow_run_not_published (ds : list byte) (s : state) :
  rx_inv s -> rx_buf_pos s = 0 ->
  forallb is_data ds = true ->
  MSG_SIZE < Z.of_nat (length ds) ->
  let kept := take (Z.to_nat (MSG_SIZE - 1)) ds in
  let s' := rx_drain ds s in
  console s' = console s /\
  rx_buf_pos s' = MSG_SIZE - 1 /\
  s' = rx_drain kept s /\
  rx_buf s' = kept ++ [NUL] /\
  read_last s' = c_str kept.
Proof.
  intros Hinv Hpos Hd Hlen kept s'.
  assert (Hklen : length kept = Z.to_nat (MSG_SIZE - 1)).
  { unfold kept. rewrite length_take. unfold MSG_SIZE in *. lia. }
  assert (Hs' : s' = set_rx_buf_pos (MSG_SIZE - 1)
                       (set_rx_buf (kept ++ [NUL]) s)).
  { subst s'. rewrite (rx_drain_data ds s Hinv Hpos Hd). fold kept.
    rewrite Hklen, (rx_inv_last_cell s Hinv).
    f_equal; unfold MSG_SIZE; lia. }
  assert (Hkept : forallb is_data kept = true).
  { now destruct (forallb_take_drop is_data (Z.to_nat (MSG_SIZE - 1)) ds Hd). }
  repeat split.
  - now rewrite Hs'.
  - now rewrite Hs'.
  - rewrite Hs', (rx_drain_data kept s Hinv Hpos Hkept).
    rewrite (take_ge kept) by lia.
    rewrite Hklen, (rx_inv_last_cell s Hinv).
    f_equal; unfold MSG_SIZE; lia.
  - now rewrite Hs'.
  - rewrite Hs'. unfold read_last. state_simpl. apply c_str_app_nul.
Qed.

Lemma overflow_run_not_published_witness :
  rx_inv (rx_drain (bytes "ok" ++ [CR]) init_state) /\
  rx_buf_pos (rx_drain (bytes "ok" ++ [CR]) init_state) = 0 /\
  forallb is_data overflow_run = true /\
  MSG_SIZE < Z.of_nat (length overflow_run) /\
  read_last (rx_drain overflow_run (rx_drain (bytes "ok" ++ [CR]) init_state))
    = c_str (take (Z.to_nat (MSG_SIZE - 1)) overflow_run).
Proof.
  split; [apply rx_inv_rx_drain, rx_inv_init|].
  repeat (split; [reflexivity|]).
  apply (overflow_run_not_published overflow_run
           (rx_drain (bytes "ok" ++ [CR]) init_state));
    [apply rx_inv_rx_drain, rx_inv_init | reflexivity | reflexivity
    | reflexivity].
Defined.

(** C6, evaluated on the code: "abc", CR, LF from the initial state. The
    CR publishes "abc"; the LF finds the cursor at zero, is stored in
    cell 0, and [read_last] then returns LF,"bc". One more terminator
    publishes the one-byte line LF. *)
Theorem consecutive_terminators_overwrite_line :
  read_last (rx_drain (bytes "abc" ++ [CR]) init_state) = bytes "abc" /\
  read_last (rx_drain (bytes "abc" ++ [CR; LF]) init_state)
    = LF :: bytes "bc" /\
  console (rx_drain (bytes "abc" ++ [CR; LF]) init_state) = [bytes "abc"] /\
  console (rx_drain (bytes "abc" ++ [CR; LF; CR]) init_state)
    = [bytes "abc"; [LF]].
Proof. repeat split; reflexivity. Qed.

(** C7, evaluated on the code: two lines with CR LF endings, "a" and "b",
    the second one closed by its CR. The second printed line is LF,"b":
    it contains a line feed. *)
Theorem published_line_contains_terminator :
  console (rx_drain (bytes "a" ++ [CR; LF] ++ bytes "b" ++ [CR]) init_state)
    = [bytes "a"; LF :: bytes "b"] /\
  existsb is_terminator (LF :: bytes "b") = true.
Proof. split; reflexivity. Qed.

(** The cursor does reach its bound: 127 data bytes fill the buffer. *)
Example cursor_reaches_limit :
  rx_buf_pos (rx_drain (replicate 127%nat "a"%byte) init_state) = MSG_SIZE - 1.
Proof. reflexivity. Qed.

(** C8: whatever bytes the receive loop has processed since start-up, the
    cursor lies in [0, MSG_SIZE - 1] and indexes a cell of [rx_buf]; and
    when it has reached [MSG_SIZE - 1], a data byte leaves the whole
    state as it is, while a terminator sets the cursor back to zero. *)
Theorem cursor_bounded (bs : list byte) :
  let s := rx_drain bs init_state in
  0 <= rx_buf_pos s <= MSG_SIZE - 1 /\
  (Z.to_nat (rx_buf_pos s) < length (rx_buf s))%nat /\
  (rx_buf_pos s = MSG_SIZE - 1 ->
   forall c : byte,
     (is_terminator c = false -> rx_byte c s = s) /\
     (is_terminator c = true -> rx_buf_pos (rx_byte c s) = 0)).
Proof.
  intros s.
  destruct (rx_inv_rx_drain bs init_state rx_inv_init) as (Hpos & Hlen & _).
  fold s in Hpos, Hlen.
  split; [exact Hpos|]. split.
  - rewrite Hlen. unfold MSG_SIZE in *. lia.
  - intros Hfull c. split; intros Hc.
    + now apply rx_byte_full.
    + rewrite rx_byte_publish; [reflexivity | exact Hc |].
      rewrite Hfull. unfold MSG_SIZE. lia.
Qed.

(** ** What the interrupt callback leaves alone *)

Lemma rx_byte_tx_fields (c : byte) (s : state) :
  tx_done_sem (rx_byte c s) = tx_done_sem s /\
  tx_busy (rx_byte c s) = tx_busy s /\
  tx_irq (rx_byte c s) = tx_irq s /\
  string_buffer (rx_byte c s) = string_buffer s /\
  wire (rx_byte c s) = wire s /\
  shell_out (rx_byte c s) = shell_out s.
Proof.
  unfold rx_byte.
  destruct (is_terminator c && (0 <? rx_buf_pos s));
    [|destruct (size_t_of_int (rx_buf_pos s) <? MSG_SIZE - 1)];
    repeat split; reflexivity.
Qed.

Lemma rx_drain_tx_fields (bs : list byte) (s : state) :
  tx_done_sem (rx_drain bs s) = tx_done_sem s /\
  tx_busy (rx_drain bs s) = tx_busy s /\
  tx_irq (rx_drain bs s) = tx_irq s /\
  string_buffer (rx_drain bs s) = string_buffer s /\
  wire (rx_drain bs s) = wire s /\
  shell_out (rx_drain bs s) = shell_out s.
Proof.
  revert s. induction bs as [|c bs IH]; intros s; cbn [rx_drain]; [tauto|].
  destruct (IH (rx_byte c s)) as (-> & -> & -> & -> & -> & ->).
  apply rx_byte_tx_fields.
Qed.

(** The callback never touches the send buffer, the wire or the shell. *)
Lemma uart_cb_out_fields (ev : irq) (s : state) :
  string_buffer (uart_cb ev s) = string_buffer s /\
  wire (uart_cb ev s) = wire s /\
  shell_out (uart_cb ev s) = shell_out s.
Proof.
  unfold uart_cb, k_sem_give.
  destruct (rx_drain_tx_fields (rx_fifo ev) s) as (_ & _ & _ & Hb & Hw & Hs).
  destruct (negb (irq_update ev)); [tauto|].
  destruct (tx_ready ev); [|tauto].
  state_simpl.
  destruct (tx_done_sem (rx_drain (rx_fifo ev) s) <? 1)%nat; state_simpl; tauto.
Qed.

Lemma run_irqs_out_fields (evs : list irq) (s : state) :
  string_buffer (run_irqs evs s) = string_buffer s /\
  wire (run_irqs evs s) = wire s /\
  shell_out (run_irqs evs s) = shell_out s.
Proof.
  revert s. induction evs as [|ev evs IH]; intros s; cbn [run_irqs]; [tauto|].
  destruct (IH (uart_cb ev s)) as (-> & -> & ->). apply uart_cb_out_fields.
Qed.

(** An interrupt that does not complete leaves flag and semaphore alone. *)
Lemma uart_cb_quiet (ev : irq) (s : state) :
  completes ev = false ->
  tx_done_sem (uart_cb ev s) = tx_done_sem s /\
  tx_busy (uart_cb ev s) = tx_busy s.
Proof.
  unfold completes, uart_cb. intros H.
  destruct (rx_drain_tx_fields (rx_fifo ev) s) as (Hsem & Hbusy & _).
  destruct (irq_update ev); cbn [negb]; [|tauto].
  cbn [andb] in H. rewrite H. tauto.
Qed.

Lemma run_irqs_quiet (evs : list irq) (s : state) :
  quiet_irqs evs = true ->
  tx_done_sem (run_irqs evs s) = tx_done_sem s /\
  tx_busy (run_irqs evs s) = tx_busy s.
Proof.
  revert s. induction evs as [|ev evs IH]; intros s; cbn [run_irqs]; [tauto|].
  unfold quiet_irqs. cbn [forallb]. intros [Hq Hrest]%andb_prop.
  destruct (IH (uart_cb ev s) Hrest) as (-> & ->).
  apply uart_cb_quiet. now destruct (completes ev).
Qed.

(** An interrupt keeps [busy_or_signalled]: it clears the flag only
    together with giving the semaphore. *)
Lemma uart_cb_busy_or_signalled (ev : irq) (s : state) :
  busy_or_signalled s -> busy_or_signalled (uart_cb ev s).
Proof.
  unfold busy_or_signalled, uart_cb, k_sem_give. intros H.
  destruct (rx_drain_tx_fields (rx_fifo ev) s) as (Hsem & Hbusy & _).
  destruct (negb (irq_update ev)); [exact H|].
  destruct (tx_ready ev); [|now rewrite Hsem, Hbusy].
  right. state_simpl.
  destruct (tx_done_sem (rx_drain (rx_fifo ev) s) <? 1)%nat eqn:E;
    state_simpl; [lia|].
  apply Nat.ltb_ge in E. exact E.
Qed.

Lemma run_irqs_busy_or_signalled (evs : list irq) (s : state) :
  busy_or_signalled s -> busy_or_signalled (run_irqs evs s).
Proof.
  revert s. induction evs as [|ev evs IH]; intros s H; cbn [run_irqs]; auto.
  apply IH, uart_cb_busy_or_signalled, H.
Qed.

(** ** The Transmit Coordinator *)

Lemma deref_string_buffer (p : str_ptr) (s s' : state) :
  string_buffer s' = string_buffer s -> deref p s' = deref p s.
Proof. intros H. destruct p; cbn [deref]; auto. Qed.

Lemma wait_idle_spec (sleeps : list (list irq)) (s s1 : state) :
  wait_idle sleeps s = Some s1 ->
  tx_busy s1 = false /\
  string_buffer s1 = string_buffer s /\
  wire s1 = wire s /\
  shell_out s1 = shell_out s.
Proof.
  revert s. induction sleeps as [|evs sleeps IH]; intros s; cbn [wait_idle];
    destruct (tx_busy s) eqn:Hb; try discriminate.
  - intros [= <-]. tauto.
  - intros H. destruct (IH _ H) as (-> & -> & -> & ->).
    split; [reflexivity|]. apply run_irqs_out_fields.
  - intros [= <-]. tauto.
Qed.

Lemma wait_idle_not_busy (sleeps : list (list irq)) (s : state) :
  tx_busy s = false -> wait_idle sleeps s = Some s.
Proof. intros H. destruct sleeps; cbn [wait_idle]; now rewrite H. Qed.

(** The send loop puts [str[i .. i+n)] on the wire, in order. *)
Lemma send_loop_wire (p : str_ptr) (pacing : nat -> list irq)
      (n i : nat) (s : state) :
  (i + n <= length (deref p s))%nat ->
  let s' := send_loop p pacing i n s in
  wire s' = wire s ++ take n (drop i (deref p s)) /\
  string_buffer s' = string_buffer s /\
  shell_out s' = shell_out s.
Proof.
  revert i s. induction n as [|n IH]; intros i s Hlen; cbn [send_loop].
  - cbn [take]. rewrite app_nil_r. tauto.
  - cbv zeta.
    set (s1 := uart_poll_out (str_at p i s) s).
    set (s2 := run_irqs (pacing i) s1).
    destruct (run_irqs_out_fields (pacing i) s1) as (Hb & Hw & Hs).
    fold s2 in Hb, Hw, Hs.
    assert (Hd : deref p s2 = deref p s).
    { apply deref_string_buffer. now rewrite Hb. }
    destruct (IH (S i) s2) as (Hw' & Hb' & Hs'); [rewrite Hd; lia|].
    rewrite Hw', Hb', Hs', Hb, Hw, Hs, Hd.
    repeat split.
    destruct (lookup_lt_is_Some_2 (deref p s) i) as [x Hx]; [lia|].
    subst s1. unfold str_at. rewrite Hx. state_simpl. cbn [default].
    rewrite (drop_S _ _ _ Hx). cbn [take].
    now rewrite <- (assoc_L (++)).
Qed.

Lemma send_loop_busy_or_signalled (p : str_ptr) (pacing : nat -> list irq)
      (n i : nat) (s : state) :
  busy_or_signalled s -> busy_or_signalled (send_loop p pacing i n s).
Proof.
  revert i s. induction n as [|n IH]; intros i s H; cbn [send_loop]; auto.
  apply IH, run_irqs_busy_or_signalled. exact H.
Qed.

Lemma send_loop_quiet (p : str_ptr) (pacing : nat -> list irq)
      (n i : nat) (s : state) :
  forallb (fun j => quiet_irqs (pacing j)) (seq i n) = true ->
  tx_done_sem (send_loop p pacing i n s) = tx_done_sem s /\
  tx_busy (send_loop p pacing i n s) = tx_busy s.
Proof.
  revert i s. induction n as [|n IH]; intros i s; cbn [send_loop seq forallb];
    [tauto|].
  intros [Hq Hrest]%andb_prop.
  destruct (IH (S i) (run_irqs (pacing i) (uart_poll_out (str_at p i s) s)) Hrest)
    as (-> & ->).
  destruct (run_irqs_quiet (pacing i) (uart_poll_out (str_at p i s) s) Hq)
    as (-> & ->).
  split; reflexivity.
Qed.

(** [k_sem_take] returns 0 or [-EAGAIN]; it returns [-EAGAIN] only with
    the count at zero, so a flag set before is still set. *)
Lemma k_sem_take_spec (window : list irq) (s : state) :
  let (r, s') := k_sem_take window s in
  string_buffer s' = string_buffer s /\
  wire s' = wire s /\
  shell_out s' = shell_out s /\
  (r = 0 \/
   r = - EAGAIN /\ (busy_or_signalled s -> tx_busy s' = true)).
Proof.
  revert s. induction window as [|ev window IH]; intros s; cbn [k_sem_take];
    destruct (0 <? tx_done_sem s)%nat eqn:E.
  - repeat split; auto.
  - repeat split; auto. right. split; [reflexivity|].
    apply Nat.ltb_ge in E. intros [H | H]; [exact H | lia].
  - repeat split; auto.
  - specialize (IH (uart_cb ev s)).
    destruct (k_sem_take window (uart_cb ev s)) as [r s'].
    destruct IH as (-> & -> & -> & Hr).
    destruct (uart_cb_out_fields ev s) as (Hb & Hw & Hs).
    repeat split; auto.
    destruct Hr as [Hr | [Hr Hbusy]]; [now left | right].
    split; [exact Hr|]. intros H.
    apply Hbusy, uart_cb_busy_or_signalled, H.
Qed.

(** With the count at zero and no completing interrupt in the window,
    [k_sem_take] times out. *)
Lemma k_sem_take_timeout (window : list irq) (s : state) :
  tx_done_sem s = 0%nat -> quiet_irqs window = true ->
  k_sem_take window s = (- EAGAIN, run_irqs window s).
Proof.
  revert s. induction window as [|ev window IH]; intros s Hsem;
    cbn [k_sem_take run_irqs]; rewrite Hsem; cbn [Nat.ltb Nat.leb];
    [reflexivity|].
  unfold quiet_irqs. cbn [forallb]. intros [Hq Hrest]%andb_prop.
  apply IH; [|exact Hrest].
  destruct (uart_cb_quiet ev s) as (-> & _); [|exact Hsem].
  now destruct (completes ev).
Qed.

(** A call that passes the readiness check puts the [len] bytes of
    [str] on the wire, whatever it returns. *)
Lemma uart_send_string_wire (env : send_env) (p : str_ptr) (len : nat)
      (s s' : state) (r : Z) :
  device_ready env = true ->
  (len <= length (deref p s))%nat ->
  uart_send_string env p len s = Some (r, s') ->
  wire s' = wire s ++ take len (deref p s) /\
  string_buffer s' = string_buffer s /\
  shell_out s' = shell_out s.
Proof.
  intros Hready Hlen. unfold uart_send_string. rewrite Hready. cbn [negb].
  destruct (wait_idle (during_sleep env) s) as [s1|] eqn:Hw; [|discriminate].
  destruct (wait_idle_spec _ _ _ Hw) as (_ & Hb1 & Hw1 & Hs1).
  set (s2 := set_tx_irq true (set_tx_busy true s1)).
  assert (Hd : deref p s2 = deref p s).
  { apply deref_string_buffer. exact Hb1. }
  destruct (send_loop_wire p (during_pacing env) len 0 s2) as (Hw3 & Hb3 & Hs3).
  { rewrite Hd. lia. }
  pose proof (k_sem_take_spec (during_take env)
                (send_loop p (during_pacing env) 0 len s2)) as Hk.
  destruct (k_sem_take (during_take env)
              (send_loop p (during_pacing env) 0 len s2)) as [r' s''].
  intros [= <- <-].
  destruct Hk as (-> & -> & -> & _).
  rewrite Hw3, Hb3, Hs3, Hd. subst s2. state_simpl.
  rewrite Hw1, Hb1, Hs1. cbn [drop]. tauto.
Qed.

Lemma uart_send_string_not_ready (env : send_env) (p : str_ptr) (len : nat)
      (s : state) :
  device_ready env = false ->
  uart_send_string env p len s = Some (- ENODEV, s).
Proof. intros H. unfold uart_send_string. now rewrite H. Qed.

(** C9: on a ready device, a call that returns a failure returns
    [-EAGAIN], which differs from success and from [-ENODEV], and leaves
    [tx_busy] set; and when the flag is clear and the count zero at entry
    and no interrupt gives the signal, the call does return [-EAGAIN]. *)
Theorem uart_send_string_timeout (env : send_env) (p : str_ptr) (len : nat)
        (s : state) :
  device_ready env = true ->
  (forall r s', uart_send_string env p len s = Some (r, s') -> r <> 0 ->
     r = - EAGAIN /\ r <> - ENODEV /\ tx_busy s' = true) /\
  (tx_busy s = false -> tx_done_sem s = 0%nat ->
   no_completion env len = true ->
   exists s', uart_send_string env p len s = Some (- EAGAIN, s') /\
              - EAGAIN <> 0 /\ - EAGAIN <> - ENODEV /\
              tx_busy s' = true).
Proof.
  intros Hready. unfold uart_send_string. rewrite Hready. cbn [negb].
  split.
  - intros r s'.
    destruct (wait_idle (during_sleep env) s) as [s1|]; [|discriminate].
    set (s3 := send_loop p (during_pacing env) 0 len
                 (set_tx_irq true (set_tx_busy true s1))).
    assert (H3 : busy_or_signalled s3).
    { apply send_loop_busy_or_signalled. now left. }
    pose proof (k_sem_take_spec (during_take env) s3) as Hk.
    destruct (k_sem_take (during_take env) s3) as [r' s''].
    intros [= <- <-] Hr.
    destruct Hk as (_ & _ & _ & [Hk | [Hk Hbusy]]); [contradiction|].
    split; [exact Hk|]. split; [rewrite Hk; discriminate | auto].
  - intros Hidle Hsem [Hpace Htake]%andb_prop.
    rewrite (wait_idle_not_busy _ _ Hidle).
    set (s2 := set_tx_irq true (set_tx_busy true s)).
    destruct (send_loop_quiet p (during_pacing env) len 0 s2 Hpace)
      as (Hsem3 & Hbusy3).
    rewrite k_sem_take_timeout; [|now rewrite Hsem3 | exact Htake].
    eexists. split; [reflexivity|].
    split; [discriminate|]. split; [discriminate|].
    destruct (run_irqs_quiet (during_take env)
                (send_loop p (during_pacing env) 0 len s2) Htake) as (_ & ->).
    now rewrite Hbusy3.
Qed.

Lemma uart_send_string_timeout_witness :
  device_ready env_silent = true /\
  tx_busy init_state = false /\
  tx_done_sem init_state = 0%nat /\
  no_completion env_silent 4 = true /\
  exists s', uart_send_string env_silent (PtrLiteral (bytes "ping")) 4
               init_state = Some (- EAGAIN, s') /\
             tx_busy s' = true.
Proof.
  repeat (split; [reflexivity|]).
  destruct (uart_send_string_timeout env_silent (PtrLiteral (bytes "ping")) 4
              init_state eq_refl) as [_ H].
  destruct (H eq_refl eq_refl eq_refl) as (s' & Hs & _ & _ & Hb).
  exists s'. split; assumption.
Defined.

(** ** The send command *)

(** The send buffer after the copy and the two terminator writes. *)
Lemma send_buffer_filled (arg : list byte) :
  Z.of_nat (strlen arg) < MAX_BUFFER_SIZE - 2 ->
  <[(strlen arg + 1)%nat := LF]>
    (<[strlen arg := TERMINATING_CHAR]>
       (strncpy (memset_zero MAX_BUFFER_SIZE) arg (strlen arg)))
  = c_str arg ++ [CR; LF]
      ++ replicate (Z.to_nat (MAX_BUFFER_SIZE - 2) - strlen arg) NUL.
Proof.
  unfold strlen, strncpy, memset_zero, MAX_BUFFER_SIZE, TERMINATING_CHAR.
  intros Hlen. rewrite take_app_length, drop_replicate.
  set (n := length (c_str arg)) in *.
  replace (Z.to_nat 256 - n)%nat with (S (S (Z.to_nat (256 - 2) - n))) by lia.
  cbn [replicate].
  rewrite insert_app_r_alt, Nat.sub_diag by (fold n; lia).
  cbn [insert list_insert].
  rewrite insert_app_r_alt by (fold n; lia).
  replace (n + 1 - length (c_str arg))%nat with 1%nat by (fold n; lia).
  reflexivity.
Qed.

(** Whether the command hands the text to [uart_send_string] is decided
    by [strlen + 2 < MAX_BUFFER_SIZE]. When it does and the device is
    ready, the text, CR and LF go on the wire, whatever is returned. *)
Lemma cmd_send_string_accepted (env : send_env) (cmd arg : list byte)
      (s s' : state) (r : Z) :
  Z.of_nat (strlen arg) + 2 < MAX_BUFFER_SIZE ->
  device_ready env = true ->
  cmd_send_string env [cmd; arg] s = Some (r, s') ->
  wire s' = wire s ++ c_str arg ++ [CR; LF].
Proof.
  intros Hlen Hready. unfold cmd_send_string.
  rewrite (proj2 (Z.ltb_lt _ _)) by lia.
  state_simpl. rewrite send_buffer_filled by lia.
  set (buf := c_str arg ++ [CR; LF] ++ _).
  set (s1 := set_string_buffer buf _).
  destruct (uart_send_string env PtrStringBuffer (strlen arg + 2) s1)
    as [[ret s2]|] eqn:Hsend; [|discriminate].
  intros [= <- <-].
  apply uart_send_string_wire in Hsend as (Hw & _); [|exact Hready|].
  - state_simpl. rewrite Hw. subst s1. cbn [deref]. state_simpl.
    f_equal. subst buf. rewrite (assoc_L (++)).
    apply take_app_length'. rewrite length_app. unfold strlen.
    cbn [length]. lia.
  - subst s1. cbn [deref]. state_simpl. subst buf.
    rewrite !length_app. unfold strlen. cbn [length]. lia.
Qed.

Lemma cmd_send_string_rejected (env : send_env) (cmd arg : list byte)
      (s : state) :
  MAX_BUFFER_SIZE <= Z.of_nat (strlen arg) + 2 ->
  cmd_send_string env [cmd; arg] s =
  Some (- EINVAL,
        shell_say (ShellTooLong (MAX_BUFFER_SIZE - 2))
          (set_string_buffer (memset_zero MAX_BUFFER_SIZE) s)).
Proof.
  intros Hlen. unfold cmd_send_string.
  now rewrite (proj2 (Z.ltb_ge _ _)) by lia.
Qed.

(** C1: when [send] is called with a text of at most
    [MAX_BUFFER_SIZE - 2] characters and returns 0, the wire has received
    exactly the characters of the text, then CR, then LF, in that order
    and nothing else. (The text is [argv[1]] read as a C string; for an
    argument without NUL that is the argument itself.) *)
Theorem send_text_success_wire (env : send_env) (cmd payload : list byte)
        (s s' : state) :
  Z.of_nat (strlen payload) <= MAX_BUFFER_SIZE - 2 ->
  cmd_send_string env [cmd; payload] s = Some (0, s') ->
  wire s' = wire s ++ c_str payload ++ [CR; LF] /\
  (forallb non_nul payload = true -> wire s' = wire s ++ payload ++ [CR; LF]).
Proof.
  intros Hlen Hsend.
  assert (Hw : wire s' = wire s ++ c_str payload ++ [CR; LF]).
  { destruct (Z_lt_le_dec (Z.of_nat (strlen payload) + 2) MAX_BUFFER_SIZE)
      as [Hfit | Hfull].
    - destruct (device_ready env) eqn:Hready.
      + eapply cmd_send_string_accepted; eauto.
      + exfalso. revert Hsend. unfold cmd_send_string.
        destruct (Z.of_nat (strlen payload) <? MAX_BUFFER_SIZE - 2);
          [|discriminate].
        rewrite uart_send_string_not_ready by exact Hready. discriminate.
    - rewrite cmd_send_string_rejected in Hsend by exact Hfull. discriminate. }
  split; [exact Hw|].
  intros Hnul. now rewrite Hw, (c_str_nul_free payload Hnul).
Qed.

Lemma send_text_success_wire_witness :
  Z.of_nat (strlen (bytes "hi")) <= MAX_BUFFER_SIZE - 2 /\
  cmd_send_string env_completes [bytes "send"; bytes "hi"] init_state
    = Some (0, after_hi) /\
  wire after_hi = wire init_state ++ c_str (bytes "hi") ++ [CR; LF].
Proof.
  split; [now vm_compute|]. split; [vm_compute; reflexivity|].
  refine (proj1 (send_text_success_wire env_completes (bytes "send")
                   (bytes "hi") init_state after_hi _ _));
    [now vm_compute | vm_compute; reflexivity].
Defined.

(** C3, as stated, fails: after a successful [send "hi"] the send buffer
    holds "hi", CR, LF; a 255-character text is then rejected, and the
    send buffer has been cleared. *)
Lemma send_text_too_long_clears_buffer :
  MAX_BUFFER_SIZE - 2 < Z.of_nat (strlen text_255) /\
  match cmd_send_string env_completes [bytes "send"; text_255] after_hi with
  | Some (r, s') =>
      r = - EINVAL /\ string_buffer s' <> string_buffer after_hi
  | None => False
  end.
Proof.
  split; [reflexivity|].
  rewrite cmd_send_string_rejected by now vm_compute.
  split; [reflexivity|]. state_simpl.
  intros H. apply (f_equal (fun l => l !! 0%nat)) in H.
  vm_compute in H. discriminate.
Qed.

(** C3, amended: a text longer than [MAX_BUFFER_SIZE - 2] is rejected
    with [-EINVAL] and the too-long message; nothing goes on the wire and
    [tx_busy], [tx_done_sem], the transmit interrupt enable and the
    receive state are unchanged. The send buffer is zeroed: the
    [memset] comes before the length check. *)
Theorem send_text_too_long_rejected (env : send_env) (cmd payload : list byte)
        (s : state) :
  MAX_BUFFER_SIZE - 2 < Z.of_nat (strlen payload) ->
  exists s',
    cmd_send_string env [cmd; payload] s = Some (- EINVAL, s') /\
    shell_out s' = shell_out s ++ [ShellTooLong (MAX_BUFFER_SIZE - 2)] /\
    wire s' = wire s /\
    tx_busy s' = tx_busy s /\
    tx_done_sem s' = tx_done_sem s /\
    tx_irq s' = tx_irq s /\
    rx_buf s' = rx_buf s /\
    rx_buf_pos s' = rx_buf_pos s /\
    console s' = console s /\
    string_buffer s' = memset_zero MAX_BUFFER_SIZE.
Proof.
  intros Hlen. eexists. split.
  - apply cmd_send_string_rejected. lia.
  - repeat split; reflexivity.
Qed.

Lemma send_text_too_long_rejected_witness :
  MAX_BUFFER_SIZE - 2 < Z.of_nat (strlen text_255) /\
  exists s',
    cmd_send_string env_completes [bytes "send"; text_255] after_hi
      = Some (- EINVAL, s') /\
    wire s' = wire after_hi /\
    string_buffer s' = memset_zero MAX_BUFFER_SIZE.
Proof.
  split; [reflexivity|].
  destruct (send_text_too_long_rejected env_completes (bytes "send") text_255
              after_hi eq_refl)
    as (s' & Hs & _ & Hw & _ & _ & _ & _ & _ & _ & Hb).
  exists s'. repeat split; assumption.
Defined.

(** C4, evaluated on the code: a text of 254 characters satisfies
    [length + 2 <= MAX_BUFFER_SIZE], and the command rejects it with the
    message "Input too long (max 254 chars)", sending nothing. *)
Theorem send_text_rejects_254 (env : send_env) (cmd : list byte) (s : state) :
  Z.of_nat (strlen text_254) + 2 <= MAX_BUFFER_SIZE /\
  exists s',
    cmd_send_string env [cmd; text_254] s = Some (- EINVAL, s') /\
    shell_out s' = shell_out s ++ [ShellTooLong 254] /\
    wire s' = wire s.
Proof.
  split; [now vm_compute|].
  eexists. split.
  - apply cmd_send_string_rejected. now vm_compute.
  - split; reflexivity.
Qed.

(** ** When the send succeeds *)

Lemma k_sem_take_available (window : list irq) (s : state) :
  (1 <= tx_done_sem s)%nat ->
  k_sem_take window s = (0, set_sem (tx_done_sem s - 1)%nat s).
Proof.
  intros H. destruct window; cbn [k_sem_take];
    now rewrite (proj2 (Nat.ltb_lt _ _)) by lia.
Qed.

Lemma uart_cb_completes (ev : irq) (s : state) :
  completes ev = true -> (1 <= tx_done_sem (uart_cb ev s))%nat.
Proof.
  unfold completes, uart_cb, k_sem_give. intros [-> ->]%andb_prop.
  cbn [negb]. state_simpl.
  destruct (tx_done_sem (rx_drain (rx_fifo ev) s) <? 1)%nat eqn:E;
    state_simpl; [lia | now apply Nat.ltb_ge in E].
Qed.

(** A completing interrupt inside the window makes [k_sem_take] return 0. *)
Lemma k_sem_take_signalled (window : list irq) (s : state) :
  existsb completes window = true -> fst (k_sem_take window s) = 0.
Proof.
  revert s. induction window as [|ev window IH]; intros s; [discriminate|].
  cbn [existsb k_sem_take].
  destruct (0 <? tx_done_sem s)%nat; [reflexivity|].
  destruct (completes ev) eqn:Hev; cbn [orb].
  - intros _. now rewrite k_sem_take_available by now apply uart_cb_completes.
  - apply IH.
Qed.

(** On a ready device with the flag clear, a transmit-ready interrupt
    during the wait makes the call return success. *)
Lemma uart_send_string_success (env : send_env) (p : str_ptr) (len : nat)
      (s : state) :
  device_ready env = true -> tx_busy s = false ->
  existsb completes (during_take env) = true ->
  exists s', uart_send_string env p len s = Some (0, s').
Proof.
  intros Hready Hidle Hdone. unfold uart_send_string.
  rewrite Hready, (wait_idle_not_busy _ _ Hidle). cbn [negb].
  pose proof (k_sem_take_signalled (during_take env)
    (send_loop p (during_pacing env) 0 len
       (set_tx_irq true (set_tx_busy true s))) Hdone) as Hk.
  destruct (k_sem_take _ _) as [r s']. cbn [fst] in Hk. subst r.
  now exists s'.
Qed.

(** ** Invariance over all reachable states *)

Lemma state_inv_init : state_inv init_state.
Proof.
  split; [apply rx_inv_init|]. split; [cbn; lia | reflexivity].
Qed.

Lemma state_inv_rx_drain (bs : list byte) (s : state) :
  state_inv s -> state_inv (rx_drain bs s).
Proof.
  intros (Hrx & Hsem & Hbuf).
  destruct (rx_drain_tx_fields bs s) as (Es & _ & _ & Eb & _).
  split; [now apply rx_inv_rx_drain|]. now rewrite Es, Eb.
Qed.

Lemma state_inv_uart_cb (ev : irq) (s : state) :
  state_inv s -> state_inv (uart_cb ev s).
Proof.
  intros H. unfold uart_cb, k_sem_give.
  destruct (negb (irq_update ev)); [exact H|].
  pose proof (state_inv_rx_drain (rx_fifo ev) s H) as (Hrx & Hsem & Hbuf).
  destruct (tx_ready ev); [|now split].
  state_simpl.
  destruct (tx_done_sem (rx_drain (rx_fifo ev) s) <? 1)%nat eqn:E;
    (split; [exact Hrx|]; split; [state_simpl | exact Hbuf]).
  - apply Nat.ltb_lt in E. lia.
  - exact Hsem.
Qed.

Lemma state_inv_run_irqs (evs : list irq) (s : state) :
  state_inv s -> state_inv (run_irqs evs s).
Proof.
  revert s. induction evs as [|ev evs IH]; intros s H; cbn [run_irqs]; auto.
  apply IH, state_inv_uart_cb, H.
Qed.

Lemma state_inv_wait_idle (sleeps : list (list irq)) (s s1 : state) :
  wait_idle sleeps s = Some s1 -> state_inv s -> state_inv s1.
Proof.
  revert s. induction sleeps as [|evs sleeps IH]; intros s; cbn [wait_idle];
    destruct (tx_busy s); try discriminate; try (now intros [= <-]).
  intros Hw H. apply (IH _ Hw), state_inv_run_irqs, H.
Qed.

Lemma state_inv_send_loop (p : str_ptr) (pacing : nat -> list irq)
      (n i : nat) (s : state) :
  state_inv s -> state_inv (send_loop p pacing i n s).
Proof.
  revert i s. induction n as [|n IH]; intros i s H; cbn [send_loop]; auto.
  apply IH, state_inv_run_irqs. exact H.
Qed.

Lemma state_inv_k_sem_take (window : list irq) (s : state) :
  state_inv s -> state_inv (snd (k_sem_take window s)).
Proof.
  revert s.
  assert (Htake : forall s, state_inv s ->
            state_inv (set_sem (tx_done_sem s - 1)%nat s)).
  { intros s (Hrx & Hsem & Hbuf). split; [exact Hrx|].
    split; [state_simpl; lia | exact Hbuf]. }
  induction window as [|ev window IH]; intros s H; cbn [k_sem_take];
    destruct (0 <? tx_done_sem s)%nat; cbn [snd]; auto.
  apply IH, state_inv_uart_cb, H.
Qed.

Lemma state_inv_uart_send_string (env : send_env) (p : str_ptr) (len : nat)
      (s s' : state) (r : Z) :
  uart_send_string env p len s = Some (r, s') -> state_inv s -> state_inv s'.
Proof.
  unfold uart_send_string.
  destruct (negb (device_ready env)); [now intros [= <- <-]|].
  destruct (wait_idle (during_sleep env) s) as [s1|] eqn:Hw; [|discriminate].
  intros Hs H.
  assert (H3 : state_inv (send_loop p (during_pacing env) 0 len
                            (set_tx_irq true (set_tx_busy true s1)))).
  { apply state_inv_send_loop. exact (state_inv_wait_idle _ _ _ Hw H). }
  apply (state_inv_k_sem_take (during_take env)) in H3.
  destruct (k_sem_take _ _) as [r' s'']. now injection Hs as <- <-.
Qed.

Lemma state_inv_cmd_send_string (env : send_env) (argv : list (list byte))
      (s s' : state) (r : Z) :
  cmd_send_string env argv s = Some (r, s') -> state_inv s -> state_inv s'.
Proof.
  intros Hs (Hrx & Hsem & Hbuf).
  assert (Hz : state_inv (set_string_buffer (memset_zero MAX_BUFFER_SIZE) s)).
  { split; [exact Hrx|]. split; [exact Hsem|]. state_simpl.
    apply length_replicate. }
  unfold cmd_send_string in Hs.
  destruct argv as [|cmd [|arg [|more argv]]];
    try (injection Hs as <- <-;
         split; [exact Hrx | split; [exact Hsem | exact Hbuf]]).
  destruct (Z.of_nat (strlen arg) <? MAX_BUFFER_SIZE - 2) eqn:Hlen.
  - destruct (uart_send_string _ _ _ _) as [[ret s2]|] eqn:Hsend;
      [|discriminate].
    injection Hs as <- <-.
    apply state_inv_uart_send_string in Hsend; [exact Hsend|].
    split; [exact Hrx|]. split; [exact Hsem|]. state_simpl.
    rewrite send_buffer_filled by now apply Z.ltb_lt.
    apply Z.ltb_lt in Hlen. unfold MAX_BUFFER_SIZE in *.
    rewrite !length_app, length_replicate. unfold strlen in *.
    cbn [length]. lia.
  - injection Hs as <- <-. exact Hz.
Qed.

(** Every reachable state satisfies the invariant: in particular the
    cursor bound of the line buffer holds however interrupts, commands
    and the greeting are interleaved. *)
Lemma reachable_state_inv (s : state) : reachable s -> state_inv s.
Proof.
  induction 1 as [|ev s _ IH|env argv s s' r _ IH Hs|s _ IH|env s s' r _ IH Hs].
  - apply state_inv_init.
  - now apply state_inv_uart_cb.
  - exact (state_inv_cmd_send_string _ _ _ _ _ Hs IH).
  - exact IH.
  - exact (state_inv_uart_send_string _ _ _ _ _ _ Hs IH).
Qed.

(** The greeting of [main] reaches the wire in full on a ready device. *)
Lemma main_greeting_wire (env : send_env) (s s' : state) (r : Z) :
  device_ready env = true ->
  main_greeting env s = Some (r, s') ->
  wire s' = wire s ++ init_msg.
Proof.
  intros Hready Hs. unfold main_greeting in Hs.
  apply uart_send_string_wire in Hs as (-> & _); [|exact Hready|].
  - reflexivity.
  - cbn [deref]. apply c_str_length_le.
Qed.

(** The flag does not span the send: the transmit interrupt is enabled
    before the first byte, and when it fires during the pacing delay of
    byte 0 the callback clears [tx_busy] while three bytes of "ping" are
    still to be sent. *)
Example flag_cleared_mid_send :
  let s1 := send_loop (PtrLiteral (bytes "ping")) (during_pacing env_early_irq)
              0 1 (set_tx_irq true (set_tx_busy true init_state)) in
  wire s1 = bytes "p" /\ tx_busy s1 = false.
Proof. split; reflexivity. Qed.

(** * Further properties of the code *)

(** ** The receive side depends on the received bytes only *)

Lemma rx_byte_rx_view (c : byte) (s1 s2 : state) :
  rx_view s1 = rx_view s2 -> rx_view (rx_byte c s1) = rx_view (rx_byte c s2).
Proof.
  unfold rx_view. intros [= Hb Hp Hc]. unfold rx_byte. rewrite Hb, Hp.
  destruct (is_terminator c && (0 <? rx_buf_pos s2));
    [|destruct (size_t_of_int (rx_buf_pos s2) <? MSG_SIZE - 1)];
    state_simpl; now rewrite ?Hb, ?Hp, ?Hc.
Qed.

Lemma rx_drain_rx_view (bs : list byte) (s1 s2 : state) :
  rx_view s1 = rx_view s2 -> rx_view (rx_drain bs s1) = rx_view (rx_drain bs s2).
Proof.
  revert s1 s2. induction bs as [|c bs IH]; intros s1 s2 H; cbn [rx_drain]; auto.
  apply IH, rx_byte_rx_view, H.
Qed.

Lemma uart_cb_rx_view (ev : irq) (s : state) :
  rx_view (uart_cb ev s) = rx_view (rx_drain (fifo_of ev) s).
Proof.
  unfold uart_cb, fifo_of, k_sem_give.
  destruct (irq_update ev); cbn [negb]; [|reflexivity].
  destruct (tx_ready ev); [|reflexivity]. state_simpl.
  now destruct (tx_done_sem (rx_drain (rx_fifo ev) s) <? 1)%nat.
Qed.

Lemma run_irqs_rx_view (evs : list irq) (s : state) :
  rx_view (run_irqs evs s) = rx_view (rx_drain (concat (map fifo_of evs)) s).
Proof.
  revert s. induction evs as [|ev evs IH]; intros s; [reflexivity|].
  cbn [run_irqs map concat]. rewrite IH, rx_drain_app.
  apply rx_drain_rx_view, uart_cb_rx_view.
Qed.

Lemma rx_fed_refl (s s' : state) : rx_view s' = rx_view s -> rx_fed s s'.
Proof. intros H. now exists []. Qed.

Lemma rx_fed_trans (s1 s2 s3 : state) :
  rx_fed s1 s2 -> rx_fed s2 s3 -> rx_fed s1 s3.
Proof.
  intros [b1 H1] [b2 H2]. exists (b1 ++ b2).
  rewrite H2, rx_drain_app. now apply rx_drain_rx_view.
Qed.

Lemma rx_fed_run_irqs (evs : list irq) (s : state) : rx_fed s (run_irqs evs s).
Proof. eexists. apply run_irqs_rx_view. Qed.

Lemma rx_fed_wait_idle (sleeps : list (list irq)) (s s1 : state) :
  wait_idle sleeps s = Some s1 -> rx_fed s s1.
Proof.
  revert s. induction sleeps as [|evs sleeps IH]; intros s; cbn [wait_idle];
    destruct (tx_busy s); try discriminate;
    try (intros [= <-]; now apply rx_fed_refl).
  intros H. eapply rx_fed_trans; [apply rx_fed_run_irqs | apply IH, H].
Qed.

Lemma rx_fed_send_loop (p : str_ptr) (pacing : nat -> list irq)
      (n i : nat) (s : state) :
  rx_fed s (send_loop p pacing i n s).
Proof.
  revert i s. induction n as [|n IH]; intros i s; cbn [send_loop].
  - now apply rx_fed_refl.
  - eapply rx_fed_trans; [|apply IH].
    eapply rx_fed_trans; [|apply rx_fed_run_irqs]. now apply rx_fed_refl.
Qed.

Lemma rx_fed_k_sem_take (window : list irq) (s : state) :
  rx_fed s (snd (k_sem_take window s)).
Proof.
  revert s. induction window as [|ev window IH]; intros s; cbn [k_sem_take];
    destruct (0 <? tx_done_sem s)%nat; cbn [snd];
    try (now apply rx_fed_refl).
  eapply rx_fed_trans; [|apply IH].
  exists (fifo_of ev). apply uart_cb_rx_view.
Qed.

Lemma rx_fed_uart_send_string (env : send_env) (p : str_ptr) (len : nat)
      (s s' : state) (r : Z) :
  uart_send_string env p len s = Some (r, s') -> rx_fed s s'.
Proof.
  unfold uart_send_string.
  destruct (negb (device_ready env)); [intros [= <- <-]; now apply rx_fed_refl|].
  destruct (wait_idle (during_sleep env) s) as [s1|] eqn:Hw; [|discriminate].
  intros Hs.
  pose proof (rx_fed_k_sem_take (during_take env)
    (send_loop p (during_pacing env) 0 len
       (set_tx_irq true (set_tx_busy true s1)))) as Hk.
  destruct (k_sem_take _ _) as [r' s'']. injection Hs as <- <-. cbn [snd] in Hk.
  eapply rx_fed_trans; [exact (rx_fed_wait_idle _ _ _ Hw)|].
  eapply rx_fed_trans; [|exact Hk].
  eapply rx_fed_trans; [|apply rx_fed_send_loop]. now apply rx_fed_refl.
Qed.

Lemma rx_fed_cmd_send_string (env : send_env) (argv : list (list byte))
      (s s' : state) (r : Z) :
  cmd_send_string env argv s = Some (r, s') -> rx_fed s s'.
Proof.
  unfold cmd_send_string.
  destruct argv as [|cmd [|arg [|more argv]]];
    try (intros [= <- <-]; now apply rx_fed_refl).
  destruct (Z.of_nat (strlen arg) <? MAX_BUFFER_SIZE - 2);
    [|intros [= <- <-]; now apply rx_fed_refl].
  destruct (uart_send_string _ _ _ _) as [[ret s2]|] eqn:Hsend; [|discriminate].
  intros [= <- <-].
  eapply rx_fed_trans; [|eapply rx_fed_trans;
    [exact (rx_fed_uart_send_string _ _ _ _ _ _ Hsend)|]];
    now apply rx_fed_refl.
Qed.

Lemma reachable_rx_fed (s : state) : reachable s -> rx_fed init_state s.
Proof.
  induction 1 as [|ev s _ IH|env argv s s' r _ IH Hs|s _ IH|env s s' r _ IH Hs].
  - now apply rx_fed_refl.
  - eapply rx_fed_trans; [exact IH|]. exists (fifo_of ev). apply uart_cb_rx_view.
  - eapply rx_fed_trans; [exact IH|]. exact (rx_fed_cmd_send_string _ _ _ _ _ Hs).
  - eapply rx_fed_trans; [exact IH|]. now apply rx_fed_refl.
  - eapply rx_fed_trans; [exact IH|].
    exact (rx_fed_uart_send_string _ _ _ _ _ _ Hs).
Qed.

Lemma reachable_run_irqs (evs : list irq) (s : state) :
  reachable s -> reachable (run_irqs evs s).
Proof.
  revert s. induction evs as [|ev evs IH]; intros s H; cbn [run_irqs]; auto.
  apply IH, reach_irq, H.
Qed.

(** X1: in every state reachable by interrupts, shell commands and the
    greeting, the cursor is in [0, MSG_SIZE - 1], [rx_buf] has its
    [MSG_SIZE] cells with NUL in the last one, the semaphore count is at
    most its limit 1, and [string_buffer] has its [MAX_BUFFER_SIZE] cells. *)
Theorem reachable_invariants (s : state) :
  reachable s ->
  0 <= rx_buf_pos s <= MSG_SIZE - 1 /\
  Z.of_nat (length (rx_buf s)) = MSG_SIZE /\
  rx_buf s !! Z.to_nat (MSG_SIZE - 1) = Some NUL /\
  (tx_done_sem s <= 1)%nat /\
  Z.of_nat (length (string_buffer s)) = MAX_BUFFER_SIZE.
Proof.
  intros H. destruct (reachable_state_inv s H) as ((Hp & Hl & Hn) & Hs & Hb).
  repeat split; try assumption; try apply Hp.
  - rewrite Hl. reflexivity.
  - rewrite Hb. reflexivity.
Qed.

Lemma reachable_invariants_witness :
  reachable after_hi /\
  0 <= rx_buf_pos after_hi <= MSG_SIZE - 1 /\
  (tx_done_sem after_hi <= 1)%nat.
Proof.
  assert (H : reachable after_hi).
  { apply (reach_send env_completes [bytes "send"; bytes "hi"] init_state
             after_hi 0 reach_init). vm_compute. reflexivity. }
  split; [exact H|].
  destruct (reachable_invariants after_hi H) as (Hp & _ & _ & Hs & _).
  split; assumption.
Defined.

Lemma c_str_bounded (l : list byte) (n : nat) :
  l !! n = Some NUL -> (length (c_str l) <= n)%nat.
Proof.
  revert n. induction l as [|c l IH]; intros n; [discriminate|].
  cbn [c_str]. destruct n as [|n]; cbn [lookup list_lookup].
  - intros [= ->]. cbn. lia.
  - intros H. destruct (Byte.eqb c NUL); cbn [length]; [lia|].
    specialize (IH n H). lia.
Qed.

(** X2: in every reachable state the string [cmd_read_last] prints has at
    most [MSG_SIZE - 1] bytes: reading [rx_buf] with ["%s"] ends at a
    NUL inside the array. *)
Theorem read_last_bounded (s : state) :
  reachable s -> Z.of_nat (length (read_last s)) <= MSG_SIZE - 1.
Proof.
  intros H. destruct (reachable_state_inv s H) as ((_ & _ & Hn) & _).
  pose proof (c_str_bounded _ _ Hn) as Hb. unfold read_last, MSG_SIZE in *. lia.
Qed.

Lemma read_last_bounded_witness :
  reachable (uart_cb rx_only_irq init_state) /\
  Z.of_nat (length (read_last (uart_cb rx_only_irq init_state))) <= MSG_SIZE - 1.
Proof.
  split; [apply reach_irq, reach_init|].
  apply (read_last_bounded (uart_cb rx_only_irq init_state)).
  apply reach_irq, reach_init.
Defined.

(** X3: how the received bytes are split over interrupts does not matter
    to the receive side: a run of interrupts leaves the line buffer, the
    cursor and the printed lines as one drain of all their bytes does. *)
Theorem rx_split_across_interrupts (evs : list irq) (s : state) :
  rx_buf (run_irqs evs s) = rx_buf (rx_drain (concat (map fifo_of evs)) s) /\
  rx_buf_pos (run_irqs evs s)
    = rx_buf_pos (rx_drain (concat (map fifo_of evs)) s) /\
  console (run_irqs evs s) = console (rx_drain (concat (map fifo_of evs)) s).
Proof.
  pose proof (run_irqs_rx_view evs s) as H. unfold rx_view in H.
  injection H as Hb Hp Hc. auto.
Qed.



(** ** The shape of the printed lines *)

Lemma forallb_c_str (f : byte -> bool) (l : list byte) :
  forallb f l = true -> forallb f (c_str l) = true.
Proof.
  induction l as [|c l IH]; cbn [c_str forallb]; [auto|].
  intros [Hc Hl]%andb_prop. destruct (Byte.eqb c NUL); [reflexivity|].
  cbn [forallb]. now rewrite Hc, IH.
Qed.

Lemma c_str_tail (f : byte -> bool) (l : list byte) :
  forallb f (drop 1 l) = true -> forallb f (drop 1 (c_str l)) = true.
Proof.
  destruct l as [|c l]; [auto|]. cbn [c_str drop].
  destruct (Byte.eqb c NUL); [reflexivity|]. cbn [drop]. apply forallb_c_str.
Qed.

Lemma take_S_insert (l : list byte) (p : nat) (c : byte) :
  (p < length l)%nat -> take (S p) (<[p := c]> l) = take p l ++ [c].
Proof.
  intros Hp. rewrite insert_take_drop by exact Hp.
  change (take p l ++ c :: drop (S p) l)
    with (take p l ++ [c] ++ drop (S p) l).
  rewrite (assoc_L (++)). apply take_app_length'.
  rewrite length_app, length_take. cbn [length]. lia.
Qed.

Lemma published_line_ok (s : state) :
  rx_inv s -> pending_tail_data s ->
  line_ok (c_str (<[Z.to_nat (rx_buf_pos s) := NUL]> (rx_buf s))).
Proof.
  intros (Hpos & Hlen & _) Htail. unfold MSG_SIZE in *.
  rewrite insert_take_drop by lia. rewrite c_str_app_nul.
  split; [|split].
  - pose proof (c_str_length_le (take (Z.to_nat (rx_buf_pos s)) (rx_buf s))) as H.
    rewrite length_take in H. unfold MSG_SIZE. lia.
  - apply c_str_is_nul_free.
  - apply c_str_tail, Htail.
Qed.

Lemma pending_tail_data_store (c : byte) (s : state) :
  rx_inv s -> pending_tail_data s ->
  is_terminator c = false \/ rx_buf_pos s = 0 ->
  rx_buf_pos s < MSG_SIZE - 1 ->
  forallb is_data
    (drop 1 (take (Z.to_nat (rx_buf_pos s + 1))
               (<[Z.to_nat (rx_buf_pos s) := c]> (rx_buf s)))) = true.
Proof.
  intros (Hpos & Hlen & _) Htail Hc Hlt. unfold MSG_SIZE in *.
  replace (Z.to_nat (rx_buf_pos s + 1)) with (S (Z.to_nat (rx_buf_pos s)))
    by lia.
  rewrite take_S_insert by lia.
  destruct (Z.to_nat (rx_buf_pos s)) as [|p] eqn:Ep; [reflexivity|].
  rewrite drop_app_le by (rewrite length_take; lia).
  rewrite forallb_app. unfold pending_tail_data in Htail. rewrite Ep in Htail.
  rewrite Htail. cbn [forallb andb]. unfold is_data.
  destruct Hc as [-> | Hz]; [reflexivity | lia].
Qed.

Lemma framer_inv_rx_byte (c : byte) (s : state) :
  rx_inv s -> pending_tail_data s -> Forall line_ok (console s) ->
  pending_tail_data (rx_byte c s) /\ Forall line_ok (console (rx_byte c s)).
Proof.
  intros Hinv Htail Hcon. pose proof Hinv as (Hpos & Hlen & _).
  unfold MSG_SIZE in Hpos.
  destruct (Z_lt_le_dec 0 (rx_buf_pos s)) as [Hgt | Hle];
    [destruct (is_terminator c) eqn:Hc|].
  - rewrite rx_byte_publish by assumption. cbv zeta.
    unfold pending_tail_data. state_simpl. split; [reflexivity|].
    apply Forall_app. split; [exact Hcon|].
    apply Forall_singleton, published_line_ok; assumption.
  - destruct (Z_lt_le_dec (rx_buf_pos s) 127) as [Hlt | Hge].
    + rewrite rx_byte_store by (auto; unfold MSG_SIZE; lia).
      unfold pending_tail_data. state_simpl. split; [|exact Hcon].
      apply pending_tail_data_store;
        [exact Hinv | exact Htail | now left | unfold MSG_SIZE; lia].
    + rewrite rx_byte_full by (auto; unfold MSG_SIZE; lia). now split.
  - rewrite rx_byte_store by (unfold MSG_SIZE; lia).
    unfold pending_tail_data. state_simpl. split; [|exact Hcon].
    apply pending_tail_data_store;
      [exact Hinv | exact Htail | right; lia | unfold MSG_SIZE; lia].
Qed.

Lemma framer_inv_rx_drain (bs : list byte) (s : state) :
  rx_inv s -> pending_tail_data s -> Forall line_ok (console s) ->
  Forall line_ok (console (rx_drain bs s)).
Proof.
  revert s. induction bs as [|c bs IH]; intros s Hinv Htail Hcon;
    cbn [rx_drain]; [exact Hcon|].
  destruct (framer_inv_rx_byte c s Hinv Htail Hcon) as [Ht Hc].
  apply IH; auto using rx_inv_rx_byte.
Qed.

(** X5: every line the callback has printed, in any reachable state, has
    at most [MSG_SIZE - 1] bytes, contains no NUL, and contains no CR or
    LF after its first byte. *)
Theorem printed_lines_shape (s : state) :
  reachable s -> Forall line_ok (console s).
Proof.
  intros H. destruct (reachable_rx_fed s H) as [bs Hbs].
  unfold rx_view in Hbs. injection Hbs as _ _ ->.
  apply framer_inv_rx_drain; [apply rx_inv_init | reflexivity | constructor].
Qed.

Lemma printed_lines_shape_witness :
  reachable (uart_cb (mkIrq true (bytes "a" ++ [CR; LF] ++ bytes "b" ++ [CR])
                        false) init_state) /\
  Forall line_ok [bytes "a"; LF :: bytes "b"].
Proof.
  split; [apply reach_irq, reach_init|].
  exact (printed_lines_shape
           (uart_cb (mkIrq true (bytes "a" ++ [CR; LF] ++ bytes "b" ++ [CR])
                       false) init_state)
           (reach_irq _ _ reach_init)).
Defined.

(** ** Framing from any cursor position *)

(** Data bytes arriving at cursor [p]: those that fit below the last cell
    are stored after the [p] pending ones, the others are dropped. *)
Lemma rx_drain_data_from (ds : list byte) (s : state) :
  rx_inv s -> forallb is_data ds = true ->
  let p := Z.to_nat (rx_buf_pos s) in
  let kept := take (Z.to_nat (MSG_SIZE - 1) - p) ds in
  rx_drain ds s =
  set_rx_buf_pos (Z.of_nat (p + length kept))
    (set_rx_buf (take p (rx_buf s) ++ kept ++ drop (p + length kept) (rx_buf s))
       s).
Proof.
  intros (Hpos & Hlen & _) Hd p kept. unfold MSG_SIZE in *.
  destruct (forallb_take_drop is_data (Z.to_nat (128 - 1) - p) ds Hd)
    as [Hk Hr]. fold kept in Hk.
  assert (Hklen : (length kept <= 127 - p)%nat).
  { unfold kept. rewrite length_take. lia. }
  assert (Hp : length (take p (rx_buf s)) = p).
  { rewrite length_take. lia. }
  rewrite <- (take_drop (Z.to_nat (128 - 1) - p) ds), rx_drain_app. fold kept.
  rewrite (rx_drain_store kept (take p (rx_buf s))
             (take (length kept) (drop p (rx_buf s)))
             (drop (p + length kept) (rx_buf s)) s).
  - rewrite Hp.
    destruct (le_lt_dec (length ds) (127 - p)) as [Hshort | Hlong].
    + rewrite drop_ge by lia. reflexivity.
    + apply rx_drain_full; [exact Hr|]. state_simpl.
      unfold kept. rewrite length_take. unfold MSG_SIZE. lia.
  - exact Hk.
  - rewrite <- drop_drop, take_drop, take_drop. reflexivity.
  - rewrite length_take, length_drop. lia.
  - rewrite Hp. lia.
  - rewrite Hp. unfold MSG_SIZE. lia.
Qed.

(** X6: a terminator publishes everything accumulated since the last
    publication. From any cursor position, data bytes followed by a
    terminator (with at least one byte pending or arriving) print one
    line: the pending bytes followed by the data bytes that fit below the
    last cell, read as a C string. The cursor returns to zero and
    [read_last] yields that line. *)
Theorem rx_line_from_cursor (ds : list byte) (t : byte) (s : state) :
  rx_inv s ->
  forallb is_data ds = true ->
  is_terminator t = true ->
  0 < rx_buf_pos s \/ ds <> [] ->
  let p := Z.to_nat (rx_buf_pos s) in
  let line := c_str (take p (rx_buf s)
                       ++ take (Z.to_nat (MSG_SIZE - 1) - p) ds) in
  let s' := rx_drain (ds ++ [t]) s in
  console s' = console s ++ [line] /\
  rx_buf_pos s' = 0 /\
  read_last s' = line.
Proof.
  intros Hinv Hd Ht Hsome p line s'.
  pose proof Hinv as (Hpos & Hlen & _). unfold MSG_SIZE in Hpos, Hlen.
  set (kept := take (Z.to_nat (MSG_SIZE - 1) - p) ds) in *.
  assert (Hklen : (length kept <= 127 - p)%nat).
  { unfold kept. rewrite length_take. unfold MSG_SIZE. lia. }
  assert (Hcur : (0 < p + length kept)%nat).
  { destruct Hsome as [Hgt | Hne]; [lia|].
    destruct (Nat.eq_dec p 0%nat) as [Hz | Hnz]; [|lia].
    unfold kept. rewrite length_take, Hz. unfold MSG_SIZE.
    destruct ds; [congruence | cbn [length]; lia]. }
  assert (Hs' : s' = set_rx_buf_pos 0
            (printk_received line
               (set_rx_buf
                  ((take p (rx_buf s) ++ kept)
                     ++ NUL :: drop (S (p + length kept)) (rx_buf s)) s))).
  { subst s'. rewrite rx_drain_app, (rx_drain_data_from ds s Hinv Hd).
    fold p kept. cbn [rx_drain].
    rewrite rx_byte_publish by (state_simpl; auto; lia).
    state_simpl. cbv zeta. state_simpl. rewrite Nat2Z.id.
    destruct (lookup_lt_is_Some_2 (rx_buf s) (p + length kept)) as [x Hx];
      [lia|].
    rewrite (assoc_L (++)).
    rewrite insert_app_r_alt by (rewrite length_app, length_take; lia).
    replace (p + length kept - length (take p (rx_buf s) ++ kept))%nat
      with 0%nat by (rewrite length_app, length_take; lia).
    rewrite (drop_S _ _ _ Hx). cbn [insert list_insert].
    rewrite c_str_app_nul. reflexivity. }
  rewrite Hs'. unfold read_last. state_simpl.
  rewrite c_str_app_nul. auto.
Qed.

Lemma rx_line_from_cursor_witness :
  rx_inv (rx_drain (bytes "ab") init_state) /\
  forallb is_data (bytes "cd") = true /\
  is_terminator LF = true /\
  (0 < rx_buf_pos (rx_drain (bytes "ab") init_state) \/ bytes "cd" <> []) /\
  read_last (rx_drain (bytes "cd" ++ [LF]) (rx_drain (bytes "ab") init_state))
    = bytes "abcd".
Proof.
  split; [apply rx_inv_rx_drain, rx_inv_init|].
  repeat (split; [first [reflexivity | now right]|]).
  apply (rx_line_from_cursor (bytes "cd") LF (rx_drain (bytes "ab") init_state));
    [apply rx_inv_rx_drain, rx_inv_init | reflexivity | reflexivity
    | now right].
Defined.

(** ** Several lines *)

Lemma plain_line_spec (line : list byte) :
  plain_line line = true ->
  line <> [] /\ forallb is_data line = true /\ forallb non_nul line = true /\
  take (Z.to_nat (MSG_SIZE - 1)) line = line.
Proof.
  unfold plain_line.
  intros [[[Hne Hd]%andb_prop Hn]%andb_prop Hl%Z.leb_le]%andb_prop.
  repeat split; auto.
  - intros ->. discriminate.
  - apply take_ge. unfold MSG_SIZE in *. lia.
Qed.

(** One plain line and its terminator, from an empty line buffer. *)
Lemma rx_drain_plain_line (line : list byte) (t : byte) (s : state) :
  rx_inv s -> rx_buf_pos s = 0 ->
  plain_line line = true -> is_terminator t = true ->
  rx_drain (line ++ [t]) s =
  set_rx_buf_pos 0
    (printk_received line
       (set_rx_buf (line ++ NUL :: drop (S (length line)) (rx_buf s)) s)).
Proof.
  intros Hinv Hpos Hline Ht.
  destruct (plain_line_spec line Hline) as (Hne & Hd & Hn & Htake).
  rewrite (rx_drain_line line t s Hinv Hpos Hne Hd Ht). cbv zeta.
  now rewrite Htake, (c_str_nul_free line Hn).
Qed.

(** X7: lines that are non-empty, free of terminators and NULs and at
    most [MSG_SIZE - 1] bytes long, each followed by exactly one
    terminator, are printed unchanged and in order when they arrive on an
    empty line buffer; afterwards [read_last] returns the last of them. *)
Theorem rx_lines_published (lts : list (list byte * byte)) (s : state) :
  rx_inv s -> rx_buf_pos s = 0 ->
  forallb (fun lt => plain_line (fst lt) && is_terminator (snd lt)) lts = true ->
  let s' := rx_drain (frame_lines lts) s in
  console s' = console s ++ map fst lts /\
  rx_buf_pos s' = 0 /\
  (forall lt, last lts = Some lt -> read_last s' = fst lt).
Proof.
  revert s. induction lts as [|[line t] lts IH]; intros s Hinv Hpos Hall.
  - cbn. rewrite app_nil_r. repeat split; auto. discriminate.
  - cbn [forallb fst snd] in Hall.
    apply andb_prop in Hall as [[Hline Ht]%andb_prop Hrest].
    unfold frame_lines. cbn [map concat fst snd]. fold (frame_lines lts).
    cbv zeta. rewrite rx_drain_app.
    pose proof (rx_drain_plain_line line t s Hinv Hpos Hline Ht) as Hs1.
    set (s1 := rx_drain (line ++ [t]) s) in *.
    assert (Hinv1 : rx_inv s1) by (subst s1; now apply rx_inv_rx_drain).
    assert (Hpos1 : rx_buf_pos s1 = 0) by now rewrite Hs1.
    destruct (IH s1 Hinv1 Hpos1 Hrest) as (Hc & Hp & Hl).
    split; [|split].
    + rewrite Hc, Hs1. state_simpl. now rewrite <- (assoc_L (++)).
    + exact Hp.
    + intros lt Hlast. destruct lts as [|lt' lts].
      * injection Hlast as <-. cbn [frame_lines map concat rx_drain fst].
        rewrite Hs1. unfold read_last. state_simpl.
        rewrite c_str_app_nul. apply c_str_nul_free.
        now destruct (plain_line_spec line Hline) as (_ & _ & ? & _).
      * apply Hl. exact Hlast.
Qed.

Lemma rx_lines_published_witness :
  rx_inv init_state /\ rx_buf_pos init_state = 0 /\
  forallb (fun lt => plain_line (fst lt) && is_terminator (snd lt))
    [(bytes "one", CR); (bytes "two", LF)] = true /\
  console (rx_drain (frame_lines [(bytes "one", CR); (bytes "two", LF)])
             init_state) = [bytes "one"; bytes "two"].
Proof.
  split; [apply rx_inv_init|]. repeat (split; [reflexivity|]).
  exact (proj1 (rx_lines_published [(bytes "one", CR); (bytes "two", LF)]
                  init_state rx_inv_init eq_refl eq_refl)).
Defined.

(** ** Receiving what the send command transmits *)

(** A plain line ended by CR LF, from an empty line buffer: the CR prints
    the line, the LF becomes the first pending byte. *)
Lemma rx_drain_crlf (line : list byte) (s : state) :
  rx_inv s -> rx_buf_pos s = 0 -> plain_line line = true ->
  let s' := rx_drain (line ++ [CR; LF]) s in
  console s' = console s ++ [line] /\
  rx_buf_pos s' = 1 /\
  read_last s' = LF :: drop 1 line.
Proof.
  intros Hinv Hpos Hline s'.
  assert (Hs' : s' = rx_byte LF (rx_drain (line ++ [CR]) s)).
  { subst s'. change [CR; LF] with ([CR] ++ [LF]).
    now rewrite (assoc_L (++)), rx_drain_app. }
  rewrite Hs', (rx_drain_plain_line line CR s Hinv Hpos Hline eq_refl).
  rewrite rx_byte_terminator_on_empty by reflexivity.
  unfold read_last. state_simpl.
  destruct (plain_line_spec line Hline) as (Hne & _ & Hn & _).
  destruct line as [|x line]; [congruence|].
  cbn [app insert list_insert drop c_str].
  cbn [forallb] in Hn. apply andb_prop in Hn as [_ Hn].
  change (Byte.eqb LF NUL) with false. cbv iota.
  rewrite c_str_app_nul, (c_str_nul_free line Hn), drop_0. auto.
Qed.

(** X8: send and receive composed. When [send] returns 0 for a plain text
    and the bytes it put on the wire reach a receiver whose line buffer
    is empty, the receiver prints exactly the text; the trailing LF stays
    in cell 0 with the cursor at 1, so [read_last] returns LF followed by
    the text without its first character. *)
Theorem send_receive_loopback (env : send_env) (cmd payload : list byte)
        (s s' rcv : state) :
  cmd_send_string env [cmd; payload] s = Some (0, s') ->
  plain_line (c_str payload) = true ->
  rx_inv rcv -> rx_buf_pos rcv = 0 ->
  let rcv' := rx_drain (drop (length (wire s)) (wire s')) rcv in
  console rcv' = console rcv ++ [c_str payload] /\
  rx_buf_pos rcv' = 1 /\
  read_last rcv' = LF :: drop 1 (c_str payload).
Proof.
  intros Hsend Hline Hinv Hpos rcv'.
  assert (Hfit : Z.of_nat (strlen payload) + 2 < MAX_BUFFER_SIZE).
  { unfold plain_line in Hline.
    apply andb_prop in Hline as [_ Hl%Z.leb_le].
    unfold strlen, MSG_SIZE, MAX_BUFFER_SIZE in *. lia. }
  assert (Hw : wire s' = wire s ++ c_str payload ++ [CR; LF]).
  { destruct (device_ready env) eqn:Hready.
    - eapply cmd_send_string_accepted; eauto.
    - exfalso. revert Hsend. unfold cmd_send_string.
      destruct (Z.of_nat (strlen payload) <? MAX_BUFFER_SIZE - 2);
        [|discriminate].
      rewrite uart_send_string_not_ready by exact Hready. discriminate. }
  subst rcv'. rewrite Hw, drop_app_length.
  now apply rx_drain_crlf.
Qed.

Lemma send_receive_loopback_witness :
  cmd_send_string env_completes [bytes "send"; bytes "hi"] init_state
    = Some (0, after_hi) /\
  plain_line (c_str (bytes "hi")) = true /\
  rx_inv init_state /\ rx_buf_pos init_state = 0 /\
  console (rx_drain (drop (length (wire init_state)) (wire after_hi))
             init_state) = console init_state ++ [c_str (bytes "hi")].
Proof.
  split; [vm_compute; reflexivity|]. split; [reflexivity|].
  split; [apply rx_inv_init|]. split; [reflexivity|].
  refine (proj1 (send_receive_loopback env_completes (bytes "send")
                   (bytes "hi") init_state after_hi init_state _ _
                   rx_inv_init eq_refl));
    [vm_compute; reflexivity | reflexivity].
Defined.

(** ** The transmit handshake *)

Lemma uart_cb_handshake (ev : irq) (s : state) :
  tx_pending s \/ tx_signalled s ->
  tx_pending (uart_cb ev s) \/ tx_signalled (uart_cb ev s).
Proof.
  unfold tx_pending, tx_signalled, uart_cb, k_sem_give. intros H.
  destruct (rx_drain_tx_fields (rx_fifo ev) s) as (Hs & Hb & Hi & _).
  destruct (negb (irq_update ev)); [exact H|].
  destruct (tx_ready ev); [|now rewrite Hs, Hb, Hi].
  right. state_simpl. rewrite Hs.
  destruct H as [(_ & E & _) | (_ & E & _)]; rewrite E; cbn [Nat.ltb Nat.leb];
    state_simpl; rewrite ?Hs, ?E; auto.
Qed.

Lemma run_irqs_handshake (evs : list irq) (s : state) :
  tx_pending s \/ tx_signalled s ->
  tx_pending (run_irqs evs s) \/ tx_signalled (run_irqs evs s).
Proof.
  revert s. induction evs as [|ev evs IH]; intros s H; cbn [run_irqs]; auto.
  apply IH, uart_cb_handshake, H.
Qed.

Lemma send_loop_handshake (p : str_ptr) (pacing : nat -> list irq)
      (n i : nat) (s : state) :
  tx_pending s \/ tx_signalled s ->
  tx_pending (send_loop p pacing i n s) \/ tx_signalled (send_loop p pacing i n s).
Proof.
  revert i s. induction n as [|n IH]; intros i s H; cbn [send_loop]; auto.
  apply IH, run_irqs_handshake. exact H.
Qed.

Lemma k_sem_take_handshake (window : list irq) (s : state) :
  tx_pending s \/ tx_signalled s ->
  let (r, s') := k_sem_take window s in
  r = 0 /\ tx_busy s' = false /\ tx_done_sem s' = 0%nat /\ tx_irq s' = false
  \/ r = - EAGAIN /\ tx_pending s'.
Proof.
  revert s. induction window as [|ev window IH]; intros s H; cbn [k_sem_take];
    destruct (0 <? tx_done_sem s)%nat eqn:E.
  - left. destruct H as [(_ & Hs & _) | (Hb & Hs & Hi)];
      rewrite Hs in E; [discriminate|]. state_simpl. rewrite Hs. auto.
  - right. destruct H as [H | (_ & Hs & _)]; [auto|].
    rewrite Hs in E. discriminate.
  - left. destruct H as [(_ & Hs & _) | (Hb & Hs & Hi)];
      rewrite Hs in E; [discriminate|]. state_simpl. rewrite Hs. auto.
  - apply IH, uart_cb_handshake, H.
Qed.

(** X9: a send started from the idle state (flag clear, semaphore empty)
    on a ready device always returns, with all [len] bytes on the wire,
    in one of two states: 0 with the system idle again (flag clear,
    semaphore empty, transmit interrupt disabled), or [-EAGAIN] with the
    flag still set and the transmit interrupt still enabled. *)
Theorem uart_send_string_from_idle (env : send_env) (p : str_ptr) (len : nat)
        (s : state) :
  device_ready env = true ->
  tx_busy s = false -> tx_done_sem s = 0%nat ->
  (len <= length (deref p s))%nat ->
  exists r s',
    uart_send_string env p len s = Some (r, s') /\
    wire s' = wire s ++ take len (deref p s) /\
    (r = 0 /\ tx_busy s' = false /\ tx_done_sem s' = 0%nat /\ tx_irq s' = false
     \/ r = - EAGAIN /\ tx_busy s' = true /\ tx_done_sem s' = 0%nat
        /\ tx_irq s' = true).
Proof.
  intros Hready Hidle Hsem Hlen.
  destruct (uart_send_string env p len s) as [[r s']|] eqn:Hs.
  - exists r, s'. split; [reflexivity|].
    split; [exact (proj1 (uart_send_string_wire _ _ _ _ _ _ Hready Hlen Hs))|].
    unfold uart_send_string in Hs. rewrite Hready in Hs. cbn [negb] in Hs.
    rewrite (wait_idle_not_busy _ _ Hidle) in Hs.
    pose proof (k_sem_take_handshake (during_take env)
      (send_loop p (during_pacing env) 0 len
         (set_tx_irq true (set_tx_busy true s)))) as Hk.
    destruct (k_sem_take _ _) as [r' s'']. injection Hs as <- <-.
    destruct Hk as [Hk | [Hr Hp]].
    + apply send_loop_handshake. left. repeat split. exact Hsem.
    + now left.
    + right. destruct Hp as (? & ? & ?). auto.
  - exfalso. unfold uart_send_string in Hs. rewrite Hready in Hs.
    cbn [negb] in Hs. rewrite (wait_idle_not_busy _ _ Hidle) in Hs.
    discriminate.
Qed.

Lemma uart_send_string_from_idle_witness :
  device_ready env_completes = true /\
  tx_busy init_state = false /\ tx_done_sem init_state = 0%nat /\
  (4 <= length (deref (PtrLiteral (bytes "ping")) init_state))%nat /\
  exists r s',
    uart_send_string env_completes (PtrLiteral (bytes "ping")) 4 init_state
      = Some (r, s') /\
    wire s' = wire init_state ++ take 4 (bytes "ping").
Proof.
  repeat (split; [first [reflexivity | cbn; lia]|]).
  destruct (uart_send_string_from_idle env_completes (PtrLiteral (bytes "ping"))
              4 init_state eq_refl eq_refl eq_refl)
    as (r & s' & Hs & Hw & _); [cbn; lia|].
  exists r, s'. split; assumption.
Defined.

(** X10: a pending signal is credited to the next send. When the flag is
    clear but the semaphore still holds a count (a transmit-ready
    interrupt came after a timeout), a send returns 0 although no
    interrupt completes it, and leaves [tx_busy] set. *)
Theorem uart_send_string_stale_signal (env : send_env) (p : str_ptr)
        (len : nat) (s : state) :
  device_ready env = true ->
  tx_busy s = false -> (1 <= tx_done_sem s)%nat ->
  no_completion env len = true ->
  exists s',
    uart_send_string env p len s = Some (0, s') /\
    tx_busy s' = true /\
    tx_done_sem s' = (tx_done_sem s - 1)%nat.
Proof.
  intros Hready Hidle Hsem [Hpace Htake]%andb_prop.
  unfold uart_send_string. rewrite Hready, (wait_idle_not_busy _ _ Hidle).
  cbn [negb].
  set (s2 := set_tx_irq true (set_tx_busy true s)).
  destruct (send_loop_quiet p (during_pacing env) len 0 s2 Hpace) as (Hs3 & Hb3).
  rewrite k_sem_take_available by (rewrite Hs3; exact Hsem).
  eexists. split; [reflexivity|]. state_simpl. now rewrite Hs3, Hb3.
Qed.

Lemma uart_send_string_stale_signal_witness :
  device_ready env_silent = true /\
  tx_busy after_late_irq = false /\ (1 <= tx_done_sem after_late_irq)%nat /\
  no_completion env_silent 4 = true /\
  exists s',
    uart_send_string env_silent (PtrLiteral (bytes "ping")) 4 after_late_irq
      = Some (0, s') /\
    tx_busy s' = true.
Proof.
  split; [reflexivity|]. split; [reflexivity|].
  split; [vm_compute; lia|]. split; [reflexivity|].
  destruct (uart_send_string_stale_signal env_silent (PtrLiteral (bytes "ping"))
              4 after_late_irq eq_refl eq_refl)
    as (s' & Hs & Hb & _); [vm_compute; lia | reflexivity|].
  exists s'. split; assumption.
Defined.

(** ** The wait loop *)

Lemma uart_cb_keeps_idle (ev : irq) (s : state) :
  tx_busy s = false -> tx_busy (uart_cb ev s) = false.
Proof.
  intros H. unfold uart_cb, k_sem_give.
  destruct (rx_drain_tx_fields (rx_fifo ev) s) as (_ & Hb & _).
  destruct (negb (irq_update ev)); [exact H|].
  destruct (tx_ready ev); [|now rewrite Hb]. state_simpl.
  now destruct (tx_done_sem (rx_drain (rx_fifo ev) s) <? 1)%nat.
Qed.

Lemma uart_cb_completes_idle (ev : irq) (s : state) :
  completes ev = true -> tx_busy (uart_cb ev s) = false.
Proof.
  unfold completes, uart_cb, k_sem_give. intros [-> ->]%andb_prop.
  cbn [negb]. state_simpl.
  now destruct (tx_done_sem (rx_drain (rx_fifo ev) s) <? 1)%nat.
Qed.

Lemma run_irqs_keeps_idle (evs : list irq) (s : state) :
  tx_busy s = false -> tx_busy (run_irqs evs s) = false.
Proof.
  revert s. induction evs as [|ev evs IH]; intros s H; cbn [run_irqs]; auto.
  apply IH, uart_cb_keeps_idle, H.
Qed.

Lemma run_irqs_completes_idle (evs : list irq) (s : state) :
  quiet_irqs evs = false -> tx_busy (run_irqs evs s) = false.
Proof.
  revert s. induction evs as [|ev evs IH]; intros s; [discriminate|].
  unfold quiet_irqs. cbn [forallb run_irqs].
  destruct (completes ev) eqn:Hev; cbn [negb andb].
  - intros _. apply run_irqs_keeps_idle, uart_cb_completes_idle, Hev.
  - apply IH.
Qed.

Lemma wait_idle_none_iff (sleeps : list (list irq)) (s : state) :
  wait_idle sleeps s = None <->
  tx_busy s = true /\ forallb quiet_irqs sleeps = true.
Proof.
  revert s. induction sleeps as [|evs sleeps IH]; intros s; cbn [wait_idle forallb].
  - destruct (tx_busy s); split; auto; intros; try discriminate.
    destruct H. discriminate.
  - destruct (tx_busy s) eqn:Hb.
    + rewrite IH. destruct (quiet_irqs evs) eqn:Hq; cbn [andb].
      * destruct (run_irqs_quiet evs s Hq) as (_ & ->). now rewrite Hb.
      * rewrite (run_irqs_completes_idle evs s Hq).
        split; intros [? ?]; discriminate.
    + split; [discriminate | intros [? _]; discriminate].
Qed.

(** X11: on a ready device, a send is still in its wait loop when the
    sleeps run out exactly when [tx_busy] was set at entry and no
    interrupt during the sleeps reported transmit-ready; otherwise it
    returns. Nothing but that interrupt ends the wait. *)
Theorem uart_send_string_blocks_iff (env : send_env) (p : str_ptr) (len : nat)
        (s : state) :
  device_ready env = true ->
  (uart_send_string env p len s = None <->
   tx_busy s = true /\ forallb quiet_irqs (during_sleep env) = true).
Proof.
  intros Hready. rewrite <- wait_idle_none_iff.
  unfold uart_send_string. rewrite Hready. cbn [negb].
  destruct (wait_idle (during_sleep env) s); split; auto; discriminate.
Qed.

Lemma uart_send_string_blocks_iff_witness :
  device_ready env_silent = true /\
  tx_busy after_timeout = true /\
  uart_send_string env_silent (PtrLiteral (bytes "ping")) 4 after_timeout = None.
Proof.
  split; [reflexivity|]. split; [reflexivity|].
  apply (uart_send_string_blocks_iff env_silent (PtrLiteral (bytes "ping")) 4
           after_timeout eq_refl).
  split; reflexivity.
Defined.

(** A failure on a ready device is the timeout and leaves the flag set. *)
Lemma uart_send_string_failure (env : send_env) (p : str_ptr) (len : nat)
      (s s' : state) (r : Z) :
  device_ready env = true ->
  uart_send_string env p len s = Some (r, s') -> r <> 0 ->
  r = - EAGAIN /\ tx_busy s' = true.
Proof.
  intros Hready. unfold uart_send_string. rewrite Hready. cbn [negb].
  destruct (wait_idle (during_sleep env) s) as [s1|]; [|discriminate].
  set (s3 := send_loop p (during_pacing env) 0 len
               (set_tx_irq true (set_tx_busy true s1))).
  assert (H3 : busy_or_signalled s3).
  { apply send_loop_busy_or_signalled. now left. }
  pose proof (k_sem_take_spec (during_take env) s3) as Hk.
  destruct (k_sem_take (during_take env) s3) as [r' s''].
  intros [= <- <-] Hr.
  destruct Hk as (_ & _ & _ & [Hk | [Hk Hbusy]]); [contradiction | auto].
Qed.

(** X12: one timeout stalls every later send. After a send on a ready
    device has returned a failure, a further send (from any caller, with
    any text) does not leave its wait loop as long as no interrupt
    reports transmit-ready during its sleeps. *)
Theorem send_after_timeout_blocks (env1 env2 : send_env) (p1 p2 : str_ptr)
        (len1 len2 : nat) (s s1 : state) (r : Z) :
  device_ready env1 = true ->
  uart_send_string env1 p1 len1 s = Some (r, s1) -> r <> 0 ->
  device_ready env2 = true ->
  forallb quiet_irqs (during_sleep env2) = true ->
  uart_send_string env2 p2 len2 s1 = None.
Proof.
  intros Hready1 Hs Hr Hready2 Hquiet.
  destruct (uart_send_string_failure _ _ _ _ _ _ Hready1 Hs Hr) as [_ Hbusy].
  unfold uart_send_string. rewrite Hready2. cbn [negb].
  now rewrite (proj2 (wait_idle_none_iff _ _) (conj Hbusy Hquiet)).
Qed.

Lemma send_after_timeout_blocks_witness :
  device_ready env_silent = true /\
  uart_send_string env_silent (PtrLiteral (bytes "ping")) 4 init_state
    = Some (- EAGAIN, after_timeout) /\
  - EAGAIN <> 0 /\
  forallb quiet_irqs (during_sleep env_silent) = true /\
  uart_send_string env_silent PtrStringBuffer 2 after_timeout = None.
Proof.
  split; [reflexivity|]. split; [vm_compute; reflexivity|].
  split; [discriminate|]. split; [reflexivity|].
  apply (send_after_timeout_blocks env_silent env_silent
           (PtrLiteral (bytes "ping")) PtrStringBuffer 4 2 init_state
           after_timeout (- EAGAIN) eq_refl);
    [vm_compute; reflexivity | discriminate | reflexivity | reflexivity].
Defined.

(** ** The send command: its other outcomes *)

(** X13: with any number of arguments other than one ([argc != 2]) the
    send command returns [-EINVAL] and prints the usage message before it
    touches anything: unlike the too-long rejection it leaves the send
    buffer as it was, and nothing is sent. *)
Theorem cmd_send_string_usage (env : send_env) (argv : list (list byte))
        (s : state) :
  length argv <> 2%nat ->
  cmd_send_string env argv s = Some (- EINVAL, shell_say ShellUsage s) /\
  string_buffer (shell_say ShellUsage s) = string_buffer s /\
  wire (shell_say ShellUsage s) = wire s.
Proof.
  intros Hargc. split; [|split; reflexivity].
  destruct argv as [|cmd [|arg [|more argv]]]; try reflexivity.
  now contradiction Hargc.
Qed.

Lemma cmd_send_string_usage_witness :
  length [bytes "send"] <> 2%nat /\
  cmd_send_string env_completes [bytes "send"] after_hi
    = Some (- EINVAL, shell_say ShellUsage after_hi).
Proof.
  split; [discriminate|].
  apply (cmd_send_string_usage env_completes [bytes "send"] after_hi).
  discriminate.
Defined.

Lemma c_str_app_nul_free (a b : list byte) :
  forallb non_nul a = true -> c_str (a ++ b) = a ++ c_str b.
Proof.
  induction a as [|c a IH]; cbn [app c_str forallb]; [reflexivity|].
  intros [Hc Ha]%andb_prop. unfold non_nul in Hc.
  destruct (Byte.eqb c NUL); [discriminate|]. now rewrite IH.
Qed.

(** What an accepted command leaves in the send buffer and on the shell,
    in terms of the call of [uart_send_string] it makes. *)
Lemma cmd_send_string_unfold (env : send_env) (cmd arg : list byte)
      (s s' : state) (r : Z) :
  Z.of_nat (strlen arg) + 2 < MAX_BUFFER_SIZE ->
  cmd_send_string env [cmd; arg] s = Some (r, s') ->
  let buf := c_str arg ++ [CR; LF]
               ++ replicate (Z.to_nat (MAX_BUFFER_SIZE - 2) - strlen arg) NUL in
  exists s2,
    uart_send_string env PtrStringBuffer (strlen arg + 2)
      (set_string_buffer buf s) = Some (r, s2) /\
    s' = shell_say (if r =? 0 then ShellSent (c_str arg) else ShellFailed r) s2.
Proof.
  intros Hlen. unfold cmd_send_string.
  rewrite (proj2 (Z.ltb_lt _ _)) by lia.
  state_simpl. rewrite send_buffer_filled by lia. cbv zeta.
  destruct (uart_send_string _ _ _ _) as [[ret s2]|]; [|discriminate].
  intros [= <- <-]. now exists s2.
Qed.

(** X14: on a device that is not ready, an accepted text is copied into
    the send buffer and the command returns [-ENODEV] and reports the
    failure on the shell; nothing is sent, and flag, semaphore and
    transmit interrupt are untouched. *)
Theorem cmd_send_string_not_ready (env : send_env) (cmd arg : list byte)
        (s : state) :
  device_ready env = false ->
  Z.of_nat (strlen arg) + 2 < MAX_BUFFER_SIZE ->
  exists s',
    cmd_send_string env [cmd; arg] s = Some (- ENODEV, s') /\
    wire s' = wire s /\
    tx_busy s' = tx_busy s /\
    tx_done_sem s' = tx_done_sem s /\
    tx_irq s' = tx_irq s /\
    shell_out s' = shell_out s ++ [ShellFailed (- ENODEV)] /\
    string_buffer s' =
      c_str arg ++ [CR; LF]
        ++ replicate (Z.to_nat (MAX_BUFFER_SIZE - 2) - strlen arg) NUL.
Proof.
  intros Hready Hlen. unfold cmd_send_string.
  rewrite (proj2 (Z.ltb_lt _ _)) by lia.
  rewrite uart_send_string_not_ready by exact Hready.
  eexists. split; [reflexivity|]. state_simpl.
  rewrite send_buffer_filled by lia. repeat split; reflexivity.
Qed.

Lemma cmd_send_string_not_ready_witness :
  device_ready env_not_ready = false /\
  Z.of_nat (strlen (bytes "hi")) + 2 < MAX_BUFFER_SIZE /\
  exists s',
    cmd_send_string env_not_ready [bytes "send"; bytes "hi"] init_state
      = Some (- ENODEV, s') /\
    wire s' = wire init_state.
Proof.
  split; [reflexivity|]. split; [now vm_compute|].
  destruct (cmd_send_string_not_ready env_not_ready (bytes "send") (bytes "hi")
              init_state eq_refl) as (s' & Hs & Hw & _); [now vm_compute|].
  exists s'. split; assumption.
Defined.

(** X15: a reported failure does not mean that nothing was sent. When an
    accepted command returns a failure on a ready device, the result is
    [-EAGAIN], the whole text with CR and LF has gone out on the wire,
    the shell shows the failure, and [tx_busy] is left set. *)
Theorem cmd_send_string_failed_but_sent (env : send_env)
        (cmd arg : list byte) (s s' : state) (r : Z) :
  device_ready env = true ->
  Z.of_nat (strlen arg) + 2 < MAX_BUFFER_SIZE ->
  cmd_send_string env [cmd; arg] s = Some (r, s') ->
  r <> 0 ->
  r = - EAGAIN /\
  wire s' = wire s ++ c_str arg ++ [CR; LF] /\
  tx_busy s' = true /\
  shell_out s' = shell_out s ++ [ShellFailed (- EAGAIN)].
Proof.
  intros Hready Hlen Hcmd Hr.
  pose proof (cmd_send_string_accepted _ _ _ _ _ _ Hlen Hready Hcmd) as Hw.
  destruct (cmd_send_string_unfold _ _ _ _ _ _ Hlen Hcmd) as (s2 & Hsend & ->).
  destruct (uart_send_string_failure _ _ _ _ _ _ Hready Hsend Hr) as [-> Hbusy].
  apply uart_send_string_wire in Hsend as (_ & _ & Hsh); [|exact Hready|].
  - repeat split; auto. change (- EAGAIN =? 0) with false. state_simpl.
    now rewrite Hsh.
  - cbn [deref]. state_simpl. rewrite !length_app, length_replicate.
    unfold strlen, MAX_BUFFER_SIZE in *. cbn [length]. lia.
Qed.

Lemma cmd_send_string_failed_but_sent_witness :
  device_ready env_silent = true /\
  Z.of_nat (strlen (bytes "hi")) + 2 < MAX_BUFFER_SIZE /\
  exists s',
    cmd_send_string env_silent [bytes "send"; bytes "hi"] init_state
      = Some (- EAGAIN, s') /\
    wire s' = wire init_state ++ c_str (bytes "hi") ++ [CR; LF].
Proof.
  split; [reflexivity|]. split; [now vm_compute|].
  destruct (cmd_send_string env_silent [bytes "send"; bytes "hi"] init_state)
    as [[r s']|] eqn:Hs; [|vm_compute in Hs; discriminate].
  assert (Hr : r = - EAGAIN).
  { vm_compute in Hs. now injection Hs as <- _. }
  subst r.
  destruct (cmd_send_string_failed_but_sent env_silent (bytes "send")
              (bytes "hi") init_state s' (- EAGAIN) eq_refl)
    as (_ & Hw & _); [now vm_compute | exact Hs | discriminate|].
  exists s'. split; [reflexivity | exact Hw].
Defined.

(** X16: after any accepted send command that returns, whatever its
    result, the send buffer holds the text, CR, LF and then only NULs: it
    still has [MAX_BUFFER_SIZE] cells and reads as the C string text CR
    LF. The shell shows "Sent successfully" with the text exactly when
    the result is 0, and the failure with the result otherwise. *)
Theorem cmd_send_string_report (env : send_env) (cmd arg : list byte)
        (s s' : state) (r : Z) :
  Z.of_nat (strlen arg) + 2 < MAX_BUFFER_SIZE ->
  cmd_send_string env [cmd; arg] s = Some (r, s') ->
  string_buffer s' =
    c_str arg ++ [CR; LF]
      ++ replicate (Z.to_nat (MAX_BUFFER_SIZE - 2) - strlen arg) NUL /\
  Z.of_nat (length (string_buffer s')) = MAX_BUFFER_SIZE /\
  c_str (string_buffer s') = c_str arg ++ [CR; LF] /\
  shell_out s' =
    shell_out s ++ [if r =? 0 then ShellSent (c_str arg) else ShellFailed r].
Proof.
  intros Hlen Hcmd.
  destruct (cmd_send_string_unfold _ _ _ _ _ _ Hlen Hcmd) as (s2 & Hsend & ->).
  set (buf := c_str arg ++ [CR; LF] ++ _) in *.
  assert (Hbuflen : Z.of_nat (length buf) = MAX_BUFFER_SIZE).
  { subst buf. rewrite !length_app, length_replicate.
    unfold strlen, MAX_BUFFER_SIZE in *. cbn [length]. lia. }
  assert (Hframe : string_buffer s2 = buf /\ shell_out s2 = shell_out s).
  { destruct (device_ready env) eqn:Hready.
    - apply uart_send_string_wire in Hsend as (_ & Hb & Hsh);
        [auto | exact Hready|].
      cbn [deref]. state_simpl. unfold strlen, MAX_BUFFER_SIZE in *. lia.
    - rewrite uart_send_string_not_ready in Hsend by exact Hready.
      injection Hsend as _ <-. auto. }
  destruct Hframe as [Hb Hsh]. state_simpl. rewrite Hb, Hsh.
  repeat split; auto.
  subst buf. rewrite c_str_app_nul_free by apply c_str_is_nul_free.
  f_equal.
  replace (Z.to_nat (MAX_BUFFER_SIZE - 2) - strlen arg)%nat
    with (S (Z.to_nat (MAX_BUFFER_SIZE - 2) - strlen arg - 1))
    by (unfold MAX_BUFFER_SIZE in *; lia).
  reflexivity.
Qed.

Lemma cmd_send_string_report_witness :
  Z.of_nat (strlen (bytes "hi")) + 2 < MAX_BUFFER_SIZE /\
  cmd_send_string env_completes [bytes "send"; bytes "hi"] init_state
    = Some (0, after_hi) /\
  c_str (string_buffer after_hi) = c_str (bytes "hi") ++ [CR; LF] /\
  shell_out after_hi = shell_out init_state ++ [ShellSent (c_str (bytes "hi"))].
Proof.
  split; [now vm_compute|]. split; [vm_compute; reflexivity|].
  destruct (cmd_send_string_report env_completes (bytes "send") (bytes "hi")
              init_state after_hi 0) as (_ & _ & Hc & Hs);
    [now vm_compute | vm_compute; reflexivity|].
  split; assumption.
Defined.

(** ** Start-up *)

(** X17: [main] returns only when start-up fails, and then before it has
    installed the callback or sent anything: with -1 and the "not ready"
    message when the UART is not ready, with 0 and no message when
    [usb_enable] fails. *)
Theorem main_returns_only_on_failure (env : main_env) (rc : Z)
        (printed : list main_msg) (s : state) :
  main env = MainReturned rc printed s ->
  s = init_state /\
  (uart_ready env = false /\ rc = -1 /\ printed = [MsgUartNotReady]
   \/ uart_ready env = true /\ usb_enable_failed env = true /\ rc = 0
      /\ printed = []).
Proof.
  unfold main.
  destruct (uart_ready env); cbn [negb]; [|intros [= <- <- <-]; auto].
  destruct (usb_enable_failed env);
    [intros [= <- <- <-]; split; auto; right; auto|].
  destruct (negb (dtr_seen (dtr_polls env))); [discriminate|].
  destruct (main_greeting _ _) as [[r s2]|]; discriminate.
Qed.

Lemma main_returns_only_on_failure_witness :
  main main_env_no_uart = MainReturned (-1) [MsgUartNotReady] init_state /\
  uart_ready main_env_no_uart = false.
Proof.
  split; [reflexivity|].
  destruct (main_returns_only_on_failure main_env_no_uart (-1)
              [MsgUartNotReady] init_state eq_refl)
    as [_ [(H & _) | (H & _)]]; [exact H | discriminate H].
Defined.

(** X18: when the UART is ready, [usb_enable] succeeds and DTR is seen,
    [main] prints the ready message, never stays in the wait loop of the
    greeting and reaches its idle loop in a reachable state. If the
    device is ready at the send, the wire then holds exactly the greeting
    and the dropped result was 0 or [-EAGAIN]; if not, nothing was sent
    and the dropped result was [-ENODEV]. *)
Theorem main_reaches_idle (env : main_env) :
  uart_ready env = true ->
  usb_enable_failed env = false ->
  dtr_seen (dtr_polls env) = true ->
  exists rc s,
    main env = MainIdle [MsgCommunicationReady] rc s /\
    reachable s /\
    (device_ready (greeting_env env) = true ->
     wire s = init_msg /\ (rc = 0 \/ rc = - EAGAIN)) /\
    (device_ready (greeting_env env) = false ->
     wire s = [] /\ rc = - ENODEV).
Proof.
  intros Huart Husb Hdtr. unfold main. rewrite Huart, Husb, Hdtr. cbn [negb].
  set (s1 := run_irqs (irqs_before_greeting env) init_state).
  assert (Hreach : reachable s1) by apply reachable_run_irqs, reach_init.
  assert (Hidle : tx_busy s1 = false) by now apply run_irqs_keeps_idle.
  assert (Hwire : wire s1 = []).
  { destruct (run_irqs_out_fields (irqs_before_greeting env) init_state)
      as (_ & H & _). exact H. }
  destruct (main_greeting (greeting_env env) s1) as [[rc s2]|] eqn:Hg.
  - exists rc, s2. split; [reflexivity|].
    split; [exact (reach_greeting _ _ _ _ Hreach Hg)|]. split.
    + intros Hready. split.
      * now rewrite (main_greeting_wire _ _ _ _ Hready Hg), Hwire.
      * destruct (Z.eq_dec rc 0) as [Hz | Hnz]; [now left | right].
        exact (proj1 (uart_send_string_failure _ _ _ _ _ _ Hready Hg Hnz)).
    + intros Hready. unfold main_greeting in Hg.
      rewrite uart_send_string_not_ready in Hg by exact Hready.
      injection Hg as <- <-. auto.
  - exfalso. unfold main_greeting, uart_send_string in Hg.
    destruct (negb (device_ready (greeting_env env))); [discriminate|].
    rewrite (wait_idle_not_busy _ _ Hidle) in Hg. discriminate.
Qed.

Lemma main_reaches_idle_witness :
  uart_ready main_env_ok = true /\
  usb_enable_failed main_env_ok = false /\
  dtr_seen (dtr_polls main_env_ok) = true /\
  exists rc s,
    main main_env_ok = MainIdle [MsgCommunicationReady] rc s /\
    wire s = init_msg.
Proof.
  repeat (split; [reflexivity|]).
  destruct (main_reaches_idle main_env_ok eq_refl eq_refl eq_refl)
    as (rc & s & Hm & _ & Hw & _).
  exists rc, s. split; [exact Hm | exact (proj1 (Hw eq_refl))].
Defined.

(** ** Reading while a line is being received *)

Lemma is_terminator_non_nul (t : byte) :
  is_terminator t = true -> Byte.eqb t NUL = false.
Proof.
  unfold is_terminator. intros [H | H]%orb_prop;
    apply Byte.byte_dec_bl in H; subst t; reflexivity.
Qed.

Lemma c_str_drop (l : list byte) (k : nat) :
  (k <= length (c_str l))%nat -> c_str (drop k l) = drop k (c_str l).
Proof.
  revert k. induction l as [|c l IH]; intros k; [now destruct k|].
  destruct k as [|k]; [reflexivity|]. cbn [c_str drop].
  destruct (Byte.eqb c NUL); cbn [length drop]; [lia|].
  intros H. apply IH. lia.
Qed.

(** X19: a blank line is not skipped. Two terminators arriving on an
    empty line buffer print a one-byte line holding the first of them:
    the first is stored as data, the second publishes it. *)
Theorem blank_line_prints_terminator (t1 t2 : byte) (s : state) :
  rx_inv s -> rx_buf_pos s = 0 ->
  is_terminator t1 = true -> is_terminator t2 = true ->
  let s' := rx_drain [t1; t2] s in
  console s' = console s ++ [[t1]] /\
  rx_buf_pos s' = 0 /\
  read_last s' = [t1].
Proof.
  intros (_ & Hlen & _) Hpos Ht1 Ht2 s'. unfold MSG_SIZE in Hlen.
  assert (Hline : c_str (<[1%nat := NUL]> (<[0%nat := t1]> (rx_buf s))) = [t1]).
  { destruct (rx_buf s) as [|x [|y rest]]; [cbn in Hlen; lia ..|].
    cbn [insert list_insert c_str]. rewrite (is_terminator_non_nul t1 Ht1).
    reflexivity. }
  subst s'. cbn [rx_drain].
  rewrite (rx_byte_terminator_on_empty t1 s Ht1 Hpos).
  rewrite rx_byte_publish by (state_simpl; auto; lia).
  cbv zeta. unfold read_last. state_simpl.
  change (Z.to_nat 1) with 1%nat. rewrite Hline. auto.
Qed.

Lemma blank_line_prints_terminator_witness :
  rx_inv init_state /\ rx_buf_pos init_state = 0 /\
  is_terminator CR = true /\ is_terminator LF = true /\
  console (rx_drain [CR; LF] init_state) = console init_state ++ [[CR]].
Proof.
  split; [apply rx_inv_init|]. repeat (split; [reflexivity|]).
  exact (proj1 (blank_line_prints_terminator CR LF init_state rx_inv_init
                  eq_refl eq_refl eq_refl)).
Defined.

(** X20: [read_last] reads the buffer the next line is written into.
    While a new line is arriving on an empty cursor, with no more data
    bytes received yet than the string the buffer held, [read_last]
    returns the new bytes followed by what is left of the old string. *)
Theorem read_last_mid_line (ds : list byte) (s : state) :
  rx_inv s -> rx_buf_pos s = 0 ->
  forallb is_data ds = true -> forallb non_nul ds = true ->
  (length ds <= length (read_last s))%nat ->
  read_last (rx_drain ds s) = ds ++ drop (length ds) (read_last s).
Proof.
  intros Hinv Hpos Hd Hn Hlen.
  pose proof Hinv as (_ & _ & Hlast).
  pose proof (c_str_bounded _ _ Hlast) as Hb. unfold MSG_SIZE in Hb.
  unfold read_last in *.
  rewrite (rx_drain_data ds s Hinv Hpos Hd). cbv zeta. state_simpl.
  rewrite (take_ge ds) by (unfold MSG_SIZE; lia).
  rewrite c_str_app_nul_free by exact Hn.
  now rewrite c_str_drop.
Qed.

Lemma read_last_mid_line_witness :
  rx_inv (rx_drain (bytes "hello" ++ [CR]) init_state) /\
  rx_buf_pos (rx_drain (bytes "hello" ++ [CR]) init_state) = 0 /\
  forallb is_data (bytes "ab") = true /\ forallb non_nul (bytes "ab") = true /\
  (length (bytes "ab")
   <= length (read_last (rx_drain (bytes "hello" ++ [CR]) init_state)))%nat /\
  read_last (rx_drain (bytes "ab") (rx_drain (bytes "hello" ++ [CR]) init_state))
    = bytes "abllo".
Proof.
  split; [apply rx_inv_rx_drain, rx_inv_init|].
  repeat (split; [first [reflexivity | vm_compute; lia]|]).
  apply (read_last_mid_line (bytes "ab")
           (rx_drain (bytes "hello" ++ [CR]) init_state));
    [apply rx_inv_rx_drain, rx_inv_init | reflexivity | reflexivity
    | reflexivity | vm_compute; lia].
Defined.
